(** * User-defined timestamp size utilities: [util/udt_util.h]

    A shallow embedding of [UserDefinedTimestampSizeRecord] (the WAL
    sidecar record and its codec), of [TimestampRecoveryHandler] and of
    [HandleWriteBatchTimestampSizeDifference], followed by the properties
    proved about them.

    Conventions.
    - [uint32_t], [uint16_t] and [size_t] values are numbers of type [N];
      every narrowing conversion of the source is written out
      ([static_cast_uint16], [static_cast_int]).
    - A [Slice] and a [std::string] used as a byte buffer are [list byte].
    - [std::unordered_map<uint32_t, size_t>] is [gmap N N].
    - [assert] is modelled as checked: a failed assertion ends the run in
      [AssertFailure], which is not a [Status]. *)

From Stdlib Require Import NArith ZArith List String Ascii Lia DecimalString Bool.
From Stdlib.Strings Require Import Byte.
From stdpp Require Import base option gmap.
Import ListNotations.

Local Open Scope N_scope.

(** ** Machine integers, bytes and status values *)

Abbreviation uint32_t := N (only parsing).
Abbreviation uint16_t := N (only parsing).
Abbreviation size_t := N (only parsing).
Abbreviation Slice := (list byte) (only parsing).

Definition is_uint32 (v : N) : Prop := v < 2 ^ 32.
Definition is_uint16 (v : N) : Prop := v < 2 ^ 16.
Definition is_size_t (v : N) : Prop := v < 2 ^ 64.

(** [static_cast<uint16_t>(v)] for an unsigned [v]. *)
Definition static_cast_uint16 (v : N) : uint16_t := v mod 2 ^ 16.

(** [static_cast<size_t>(v)] for an unsigned [v]. *)
Definition static_cast_size_t (v : N) : size_t := v mod 2 ^ 64.

(** [static_cast<int>(v)] for an unsigned [v]: reduction modulo [2^32] into
    the two's complement range of a 32-bit [int]. *)
Definition static_cast_int (v : N) : Z :=
  let w := (Z.of_N v mod 2 ^ 32)%Z in
  if (w <? 2 ^ 31)%Z then w else (w - 2 ^ 32)%Z.

(** [rocksdb::Status], reduced to the codes this header produces. *)
Inductive Status : Type :=
| OK
| Corruption (msg : string)
| InvalidArgument (msg : string).

Definition ok (s : Status) : bool :=
  match s with OK => true | _ => false end.

Definition IsCorruption (s : Status) : Prop := exists msg, s = Corruption msg.
Definition IsInvalidArgument (s : Status) : Prop :=
  exists msg, s = InvalidArgument msg.

(** The outcome of running code that contains [assert]s. *)
Inductive Run (A : Type) : Type :=
| Done (a : A)
| AssertFailure.
Arguments Done {A} a.
Arguments AssertFailure {A}.

#[global] Instance Run_ret : MRet Run := fun A a => Done a.

#[global] Instance Run_bind : MBind Run := fun A B k m =>
  match m with
  | Done a => k a
  | AssertFailure => AssertFailure
  end.

(** [oss << n] for an unsigned integer. *)
Definition decimal (n : N) : string := NilZero.string_of_uint (N.to_uint n).

(** [std::endl] *)
Definition endl : string := String (ascii_of_nat 10) EmptyString.

(** [s] contains [sub] as a contiguous substring. *)
Definition contains (s sub : string) : Prop :=
  exists before after, s = (before ++ sub ++ after)%string.

(** ** Fixed-width coding helpers *)

Module coding.

(** The least significant byte of [v], i.e. [v & 0xff] as a [char]. *)
Definition low_byte (v : N) : byte :=
  match Byte.of_N (N.land v 255) with
  | Some b => b
  | None => x00
  end.

(** Modelled from the spec: [EncodeFixed32]/[PutFixed32] of
    [util/coding.h], which is not part of the sources at hand.  The spec
    (4.1, 6) fixes the width, 4 bytes; the byte order is the
    little-endian one of the two it allows. *)
Definition EncodeFixed32 (value : uint32_t) : list byte :=
  [ low_byte value;
    low_byte (N.shiftr value 8);
    low_byte (N.shiftr value 16);
    low_byte (N.shiftr value 24) ].

Definition PutFixed32 (dst : list byte) (value : uint32_t) : list byte :=
  dst ++ EncodeFixed32 value.

(** Modelled from the spec: [EncodeFixed16]/[PutFixed16] of
    [util/coding.h]; 2 bytes, little-endian. *)
Definition EncodeFixed16 (value : uint16_t) : list byte :=
  [ low_byte value; low_byte (N.shiftr value 8) ].

Definition PutFixed16 (dst : list byte) (value : uint16_t) : list byte :=
  dst ++ EncodeFixed16 value.

(** Modelled from the spec: [DecodeFixed32]/[GetFixed32] of
    [util/coding.h].  [GetFixed32] fails, leaving the input alone, when
    fewer than 4 bytes remain; otherwise it reads 4 bytes and advances. *)
Definition DecodeFixed32 (b0 b1 b2 b3 : byte) : uint32_t :=
  N.lor (N.lor (N.lor (Byte.to_N b0) (N.shiftl (Byte.to_N b1) 8))
               (N.shiftl (Byte.to_N b2) 16))
        (N.shiftl (Byte.to_N b3) 24).

Definition GetFixed32 (input : Slice) : option (uint32_t * Slice) :=
  match input with
  | b0 :: b1 :: b2 :: b3 :: rest => Some (DecodeFixed32 b0 b1 b2 b3, rest)
  | _ => None
  end.

(** Modelled from the spec: [DecodeFixed16]/[GetFixed16] of
    [util/coding.h]. *)
Definition DecodeFixed16 (b0 b1 : byte) : uint16_t :=
  N.lor (Byte.to_N b0) (N.shiftl (Byte.to_N b1) 8).

Definition GetFixed16 (input : Slice) : option (uint16_t * Slice) :=
  match input with
  | b0 :: b1 :: rest => Some (DecodeFixed16 b0 b1, rest)
  | _ => None
  end.

End coding.
Import coding.

(** ** [UserDefinedTimestampSizeRecord] *)

Record UserDefinedTimestampSizeRecord : Type := mkRecord {
  cf_to_ts_sz_ : list (uint32_t * size_t)
}.

(** The default constructor. *)
Definition empty_record : UserDefinedTimestampSizeRecord := mkRecord [].

Definition GetUserDefinedTimestampSize (r : UserDefinedTimestampSizeRecord)
  : list (uint32_t * size_t) := cf_to_ts_sz_ r.

(** 4 bytes for column family id, 2 bytes for user-defined timestamp size. *)
Definition kSizePerColumnFamily : size_t := 4 + 2.

(** The [for] loop of [EncodeTo] over the remaining pairs: each round
    asserts [ts_sz != 0] and appends the two fixed-width encodings.  The
    destination string is given ([assert(dst != nullptr)] holds). *)
Fixpoint EncodeTo_loop (pairs : list (uint32_t * size_t)) (dst : list byte)
  : Run (list byte) :=
  match pairs with
  | [] => Done dst
  | (cf_id, ts_sz) :: rest =>
      if ts_sz =? 0 then AssertFailure
      else EncodeTo_loop rest
             (PutFixed16 (PutFixed32 dst cf_id) (static_cast_uint16 ts_sz))
  end.

Definition EncodeTo (r : UserDefinedTimestampSizeRecord) (dst : list byte)
  : Run (list byte) :=
  EncodeTo_loop (cf_to_ts_sz_ r) dst.

Definition decode_entry_error : string :=
  "Error decoding user-defined timestamp size record entry".

Definition length_error (total_size : size_t) : string :=
  ("User-defined timestamp size record length: " ++ decimal total_size
   ++ " is not a multiple of " ++ decimal kSizePerColumnFamily ++ endl)%string.

(** [n] further rounds of the [for] loop of [DecodeFrom]; the result is the
    status, what is left of [src], and the pairs held afterwards. *)
Fixpoint DecodeFrom_loop (n : nat) (src : Slice)
    (pairs : list (uint32_t * size_t))
  : Status * Slice * list (uint32_t * size_t) :=
  match n with
  | O => (OK, src, pairs)
  | S n' =>
      match GetFixed32 src with
      | None => (Corruption decode_entry_error, src, pairs)
      | Some (cf_id, src1) =>
          match GetFixed16 src1 with
          | None => (Corruption decode_entry_error, src1, pairs)
          | Some (ts_sz, src2) =>
              DecodeFrom_loop n' src2
                (pairs ++ [(cf_id, static_cast_size_t ts_sz)])
          end
      end
  end.

(** [DecodeFrom(Slice* src)] on the record [r].  [total_size] is
    [src->size()], a [size_t]; the number of entries is narrowed to [int].
    The loop counter [i] runs from 0 while [i < num_of_entries], hence
    [Z.to_nat num_of_entries] rounds (none when the count is negative).
    The result is the status, what is left of [src], and the record. *)
Definition DecodeFrom (src : Slice) (r : UserDefinedTimestampSizeRecord)
  : Status * Slice * UserDefinedTimestampSizeRecord :=
  let total_size : size_t := N.of_nat (length src) in
  if negb (total_size mod kSizePerColumnFamily =? 0) then
    (Corruption (length_error total_size), src, r)
  else
    let num_of_entries : Z :=
      static_cast_int (total_size / kSizePerColumnFamily) in
    let '(s, src', pairs) :=
      DecodeFrom_loop (Z.to_nat num_of_entries) src (cf_to_ts_sz_ r) in
    (s, src', mkRecord pairs).

(** The pairs spelled by a byte string, six bytes at a time: this is what
    "consecutive 4-byte/2-byte groups in input order" means. *)
Fixpoint groups_of (src : list byte) : list (uint32_t * size_t) :=
  match src with
  | b0 :: b1 :: b2 :: b3 :: b4 :: b5 :: rest =>
      (DecodeFixed32 b0 b1 b2 b3, DecodeFixed16 b4 b5) :: groups_of rest
  | _ => []
  end.

(** The six bytes written for one pair. *)
Definition encode_pair (p : uint32_t * size_t) : list byte :=
  EncodeFixed32 (fst p) ++ EncodeFixed16 (snd p mod 65536).

(** ** Write batches *)

(** Modelled from the spec: [WriteBatch] ([rocksdb/write_batch.h],
    [db/write_batch_internal.h]) is outside the sources at hand.  Following
    the spec (3, "Mutation entry"; 6, "Consumed abstraction") a batch is
    the sequence of its entries in original order: the six mutation kinds,
    each with a column family id and its byte strings, and the transaction
    markers, which carry no user key. *)
Inductive Entry : Type :=
| Put (cf : uint32_t) (key value : Slice)
| Delete (cf : uint32_t) (key : Slice)
| SingleDelete (cf : uint32_t) (key : Slice)
| DeleteRange (cf : uint32_t) (begin_key end_key : Slice)
| Merge (cf : uint32_t) (key value : Slice)
| PutBlobIndex (cf : uint32_t) (key value : Slice)
| BeginPrepare (unprepared : bool)
| EndPrepare (xid : Slice)
| Commit (xid : Slice)
| CommitWithTimestamp (xid ts : Slice)
| Rollback (xid : Slice)
| Noop (empty_batch : bool).

Abbreviation WriteBatch := (list Entry) (only parsing).

(** The column family an entry refers to; markers refer to none. *)
Definition entry_cf (e : Entry) : option uint32_t :=
  match e with
  | Put cf _ _ | Delete cf _ | SingleDelete cf _ | DeleteRange cf _ _
  | Merge cf _ _ | PutBlobIndex cf _ _ => Some cf
  | _ => None
  end.

(** The user keys an entry carries. *)
Definition entry_keys (e : Entry) : list Slice :=
  match e with
  | Put _ k _ | Delete _ k | SingleDelete _ k | Merge _ k _
  | PutBlobIndex _ k _ => [k]
  | DeleteRange _ b e => [b; e]
  | _ => []
  end.

Definition is_mutation (e : Entry) : bool :=
  match entry_cf e with Some _ => true | None => false end.

(** The mutations of a batch, in order, without the markers. *)
Definition mutations (batch : WriteBatch) : WriteBatch :=
  filter (fun e => is_mutation e = true) batch.

(** The column families referenced by a batch, in order of reference. *)
Definition referenced_cfs (batch : WriteBatch) : list uint32_t :=
  omap entry_cf batch.

(** ** The reconciliation rule *)

Inductive Action : Type := NoOp | Pad | Strip | Fail.

(** Modelled from the spec: the rule over (recorded size, running size) is
    implemented in [util/udt_util.cc], which is not part of the sources at
    hand.  The cases are taken in the order of the comment above
    [TimestampRecoveryHandler] (1: pad, 2: strip, 3: no-op, 4: invalid
    argument), which is the table of the spec (4.2). *)
Definition reconciliation_rule (recorded_sz running_sz : size_t) : Action :=
  if (recorded_sz =? 0) && (0 <? running_sz) then Pad
  else if (0 <? recorded_sz) && (running_sz =? 0) then Strip
  else if recorded_sz =? running_sz then NoOp
  else Fail.

(** A minimum timestamp of [ts_sz] bytes: all zero. *)
Definition min_timestamp (ts_sz : size_t) : Slice :=
  repeat x00 (N.to_nat ts_sz).

Definition unreconcilable_error : string :=
  "Unrecoverable timestamp size inconsistency".

(** Modelled from the spec: [reconcile(recorded_sz, running_sz, user_key)]
    of the spec (4.2).  The result is [None] for a no-op and the rewritten
    key otherwise; the only status it can fail with is [InvalidArgument];
    stripping more bytes than the key holds is a violated precondition
    that fails loudly (7), not a status. *)
Definition reconcile (recorded_sz running_sz : size_t) (user_key : Slice)
  : Run (Status * option Slice) :=
  match reconciliation_rule recorded_sz running_sz with
  | NoOp => Done (OK, None)
  | Pad => Done (OK, Some (user_key ++ min_timestamp running_sz))
  | Strip =>
      if N.of_nat (length user_key) <? recorded_sz then AssertFailure
      else Done (OK, Some (firstn (length user_key - N.to_nat recorded_sz)
                                  user_key))
  | Fail => Done (InvalidArgument unreconcilable_error, None)
  end.

(** ** [TimestampRecoveryHandler] *)

Record TimestampRecoveryHandler : Type := mkHandler {
(** Mapping from column family id to user-defined timestamp size for all
      running column families including the ones with zero timestamp size. *)
  running_ts_sz_ : gmap N N;
(** Mapping from column family id to user-defined timestamp size as
      recorded in the WAL.  This only contains non-zero sizes. *)
  record_ts_sz_ : gmap N N;
(** [std::unique_ptr<WriteBatch>]: [None] is the empty pointer. *)
  new_batch_ : option WriteBatch;
(** Valid upon creation, invalid after [new_batch_] is transferred. *)
  handler_valid_ : bool;
(** False upon creation, true once a user key has been updated. *)
  new_batch_diff_from_orig_batch_ : bool
}.

(** Modelled from the spec: the constructor is defined in
    [util/udt_util.cc].  The new batch starts empty, [handler_valid_] true
    and [new_batch_diff_from_orig_batch_] false (4.3 and the comments on
    the members). *)
Definition new_TimestampRecoveryHandler (running_ts_sz record_ts_sz : gmap N N)
  : TimestampRecoveryHandler :=
  mkHandler running_ts_sz record_ts_sz (Some []) true false.

Definition mark_changed (h : TimestampRecoveryHandler)
  : TimestampRecoveryHandler :=
  mkHandler (running_ts_sz_ h) (record_ts_sz_ h) (new_batch_ h)
            (handler_valid_ h) true.

(** Appending one entry to the batch the handler owns (the
    [WriteBatchInternal::Put], [Delete], ... of the callbacks). *)
Definition append_entry (h : TimestampRecoveryHandler) (e : Entry)
  : TimestampRecoveryHandler :=
  mkHandler (running_ts_sz_ h) (record_ts_sz_ h)
            ((fun b => b ++ [e]) <$> new_batch_ h)
            (handler_valid_ h) (new_batch_diff_from_orig_batch_ h).

(** [TransferNewBatch].  The function returns an rvalue reference to
    [new_batch_]; the caller's move ([*new_batch = h.TransferNewBatch()])
    takes the batch and leaves [new_batch_] empty, which is the handler
    state returned here. *)
Definition TransferNewBatch (h : TimestampRecoveryHandler)
  : Run (option WriteBatch * TimestampRecoveryHandler) :=
  if negb (new_batch_diff_from_orig_batch_ h) then AssertFailure
  else Done (new_batch_ h,
             mkHandler (running_ts_sz_ h) (record_ts_sz_ h) None false
                       (new_batch_diff_from_orig_batch_ h)).

(** Modelled from the spec: [ReconcileTimestampDiscrepancy] is declared in
    the header and defined in [util/udt_util.cc].  Using an invalid handler
    is a contract violation (4.3); a column family without an entry in
    [running_ts_sz_] has been dropped and its key is passed on as is (the
    comment on [kReconcileInconsistency]); an absent recorded size is 0;
    a rewritten key sets [new_batch_diff_from_orig_batch_].  The result
    carries the key to write ([*new_key]). *)
Definition ReconcileTimestampDiscrepancy (h : TimestampRecoveryHandler)
    (cf : uint32_t) (key : Slice)
  : Run (Status * Slice * TimestampRecoveryHandler) :=
  if negb (handler_valid_ h) then AssertFailure
  else
    match running_ts_sz_ h !! cf with
    | None => Done (OK, key, h)
    | Some running_sz =>
        let recorded_sz := default 0 (record_ts_sz_ h !! cf) in
        '(s, rewritten) ← reconcile recorded_sz running_sz key;
        match rewritten with
        | Some new_key => Done (s, new_key, mark_changed h)
        | None => Done (s, key, h)
        end
    end.

(** Modelled from the spec: the six mutation callbacks are defined in
    [util/udt_util.cc].  Each reconciles every user key it carries, returns
    the first status that is not OK, and otherwise appends the mutation,
    with the reconciled keys and the payload untouched (4.3). *)
Definition on_key (h : TimestampRecoveryHandler) (cf : uint32_t) (key : Slice)
    (mk : Slice -> Entry) : Run (Status * TimestampRecoveryHandler) :=
  '(s, new_key, h') ← ReconcileTimestampDiscrepancy h cf key;
  if ok s then Done (OK, append_entry h' (mk new_key)) else Done (s, h').

Definition PutCF (h : TimestampRecoveryHandler) (cf : uint32_t)
    (key value : Slice) : Run (Status * TimestampRecoveryHandler) :=
  on_key h cf key (fun k => Put cf k value).

Definition DeleteCF (h : TimestampRecoveryHandler) (cf : uint32_t)
    (key : Slice) : Run (Status * TimestampRecoveryHandler) :=
  on_key h cf key (fun k => Delete cf k).

Definition SingleDeleteCF (h : TimestampRecoveryHandler) (cf : uint32_t)
    (key : Slice) : Run (Status * TimestampRecoveryHandler) :=
  on_key h cf key (fun k => SingleDelete cf k).

Definition DeleteRangeCF (h : TimestampRecoveryHandler) (cf : uint32_t)
    (begin_key end_key : Slice) : Run (Status * TimestampRecoveryHandler) :=
  '(s, new_begin_key, h1) ← ReconcileTimestampDiscrepancy h cf begin_key;
  if ok s then
    '(s', new_end_key, h2) ← ReconcileTimestampDiscrepancy h1 cf end_key;
    if ok s' then
      Done (OK, append_entry h2 (DeleteRange cf new_begin_key new_end_key))
    else Done (s', h2)
  else Done (s, h1).

Definition MergeCF (h : TimestampRecoveryHandler) (cf : uint32_t)
    (key value : Slice) : Run (Status * TimestampRecoveryHandler) :=
  on_key h cf key (fun k => Merge cf k value).

Definition PutBlobIndexCF (h : TimestampRecoveryHandler) (cf : uint32_t)
    (key value : Slice) : Run (Status * TimestampRecoveryHandler) :=
  on_key h cf key (fun k => PutBlobIndex cf k value).

(** The marker callbacks of the header: each returns [Status::OK()]. *)
Definition MarkBeginPrepare (h : TimestampRecoveryHandler) (_ : bool)
  : Run (Status * TimestampRecoveryHandler) := Done (OK, h).
Definition MarkEndPrepare (h : TimestampRecoveryHandler) (_ : Slice)
  : Run (Status * TimestampRecoveryHandler) := Done (OK, h).
Definition MarkCommit (h : TimestampRecoveryHandler) (_ : Slice)
  : Run (Status * TimestampRecoveryHandler) := Done (OK, h).
Definition MarkCommitWithTimestamp (h : TimestampRecoveryHandler)
    (_ _ : Slice) : Run (Status * TimestampRecoveryHandler) := Done (OK, h).
Definition MarkRollback (h : TimestampRecoveryHandler) (_ : Slice)
  : Run (Status * TimestampRecoveryHandler) := Done (OK, h).
Definition MarkNoop (h : TimestampRecoveryHandler) (_ : bool)
  : Run (Status * TimestampRecoveryHandler) := Done (OK, h).

(** Modelled from the spec: [WriteBatch::Iterate] belongs to the batch
    abstraction.  It invokes one callback per entry in original order (6)
    and stops at the first status that is not OK. *)
Definition visit (h : TimestampRecoveryHandler) (e : Entry)
  : Run (Status * TimestampRecoveryHandler) :=
  match e with
  | Put cf key value => PutCF h cf key value
  | Delete cf key => DeleteCF h cf key
  | SingleDelete cf key => SingleDeleteCF h cf key
  | DeleteRange cf begin_key end_key => DeleteRangeCF h cf begin_key end_key
  | Merge cf key value => MergeCF h cf key value
  | PutBlobIndex cf key value => PutBlobIndexCF h cf key value
  | BeginPrepare unprepared => MarkBeginPrepare h unprepared
  | EndPrepare xid => MarkEndPrepare h xid
  | Commit xid => MarkCommit h xid
  | CommitWithTimestamp xid ts => MarkCommitWithTimestamp h xid ts
  | Rollback xid => MarkRollback h xid
  | Noop empty_batch => MarkNoop h empty_batch
  end.

Fixpoint Iterate (batch : WriteBatch) (h : TimestampRecoveryHandler)
  : Run (Status * TimestampRecoveryHandler) :=
  match batch with
  | [] => Done (OK, h)
  | e :: rest =>
      '(s, h') ← visit h e;
      if ok s then Iterate rest h' else Done (s, h')
  end.

(** ** [HandleWriteBatchTimestampSizeDifference] *)

Inductive TimestampSizeConsistencyMode : Type :=
| kVerifyConsistency
| kReconcileInconsistency.

Definition inconsistency_error (cf : uint32_t) (recorded_sz running_sz : size_t)
  : string :=
  ("Column family " ++ decimal cf ++ ": recorded timestamp size "
   ++ decimal recorded_sz ++ ", running timestamp size "
   ++ decimal running_sz)%string.

(** Modelled from the spec: the check of one referenced column family in
    verification mode (4.4).  A dropped column family is ignored; for a
    live one every outcome of the rule other than no-op is an
    [InvalidArgument] naming the column family and both sizes. *)
Definition check_column_family (running_ts_sz record_ts_sz : gmap N N)
    (cf : uint32_t) : Status :=
  match running_ts_sz !! cf with
  | None => OK
  | Some running_sz =>
      let recorded_sz := default 0 (record_ts_sz !! cf) in
      match reconciliation_rule recorded_sz running_sz with
      | NoOp => OK
      | _ => InvalidArgument (inconsistency_error cf recorded_sz running_sz)
      end
  end.

Fixpoint VerifyConsistency (running_ts_sz record_ts_sz : gmap N N)
    (cfs : list uint32_t) : Status :=
  match cfs with
  | [] => OK
  | cf :: rest =>
      let s := check_column_family running_ts_sz record_ts_sz cf in
      if ok s then VerifyConsistency running_ts_sz record_ts_sz rest else s
  end.

(** Modelled from the spec: [HandleWriteBatchTimestampSizeDifference] is
    declared in the header and defined in [util/udt_util.cc].  As in the
    spec (4.4): verification mode checks every live referenced column
    family and never writes the output slot; reconciliation mode runs a
    fresh handler over the batch and, if that completes, transfers the
    handler's batch into the output slot with [TransferNewBatch]; on a
    failed replay the slot is left as it was.  The caller supplies the
    slot; [new_batch] is its content before the call, and the result is
    the status and its content afterwards. *)
Definition HandleWriteBatchTimestampSizeDifference (batch : WriteBatch)
    (running_ts_sz record_ts_sz : gmap N N)
    (check_mode : TimestampSizeConsistencyMode)
    (new_batch : option WriteBatch)
  : Run (Status * option WriteBatch) :=
  match check_mode with
  | kVerifyConsistency =>
      Done (VerifyConsistency running_ts_sz record_ts_sz
              (referenced_cfs batch), new_batch)
  | kReconcileInconsistency =>
      let recovery_handler :=
        new_TimestampRecoveryHandler running_ts_sz record_ts_sz in
      '(s, h) ← Iterate batch recovery_handler;
      if ok s then
        '(transferred, _) ← TransferNewBatch h;
        Done (OK, transferred)
      else Done (s, new_batch)
  end.

(** ** Notions used to state the properties *)

(** The recorded size of a column family: 0 when it has no recorded entry. *)
Definition recorded_size (record_ts_sz : gmap N N) (cf : uint32_t) : size_t :=
  default 0 (record_ts_sz !! cf).

(** Every user key of the entry is at least as long as the timestamp size
    recorded for its column family: the keys were written with that suffix
    (spec, 3, "Mutation entry"). *)
Definition entry_keys_carry_suffix (record_ts_sz : gmap N N) (e : Entry)
  : Prop :=
  match entry_cf e with
  | Some cf => Forall (fun k => recorded_size record_ts_sz cf
                                <= N.of_nat (length k)) (entry_keys e)
  | None => True
  end.

Definition keys_carry_recorded_suffix (record_ts_sz : gmap N N)
    (batch : WriteBatch) : Prop :=
  Forall (entry_keys_carry_suffix record_ts_sz) batch.

(** An entry of a dropped column family: it refers to a column family
    that has no entry in the running map. *)
Definition dropped (running_ts_sz : gmap N N) (e : Entry) : bool :=
  match entry_cf e with
  | Some cf => bool_decide (running_ts_sz !! cf = None)
  | None => false
  end.

(** The batch without the entries of dropped column families. *)
Definition live_entries (running_ts_sz : gmap N N) (batch : WriteBatch)
  : WriteBatch :=
  filter (fun e => dropped running_ts_sz e = false) batch.

(** What a run ended with, leaving the data aside: a status or a failed
    assertion. *)
Definition status_of {A} (r : Run (Status * A)) : Run Status :=
  match r with
  | Done (s, _) => Done s
  | AssertFailure => AssertFailure
  end.

(** A pair that fits the wire format: a 32-bit column family id and a
    timestamp size that is positive and fits 16 bits. *)
Definition in_wire_range (p : uint32_t * size_t) : Prop :=
  is_uint32 (fst p) /\ 0 < snd p <= 65535.

(** The handler after the entries [es] have been appended to its batch. *)
Definition append_entries (h : TimestampRecoveryHandler) (es : list Entry)
  : TimestampRecoveryHandler :=
  mkHandler (running_ts_sz_ h) (record_ts_sz_ h)
            ((fun b => b ++ es) <$> new_batch_ h)
            (handler_valid_ h) (new_batch_diff_from_orig_batch_ h).

(** A column family needs no rewriting when it has been dropped or when
    its running size is the recorded one. *)
Definition settled (running_ts_sz record_ts_sz : gmap N N) (cf : uint32_t)
  : Prop :=
  running_ts_sz !! cf = None \/
  running_ts_sz !! cf = Some (recorded_size record_ts_sz cf).

(** A live column family whose two sizes are nonzero and differ. *)
Definition unreconcilable (running_ts_sz record_ts_sz : gmap N N)
    (cf : uint32_t) : Prop :=
  exists running_sz,
    running_ts_sz !! cf = Some running_sz /\
    0 < recorded_size record_ts_sz cf /\ 0 < running_sz /\
    recorded_size record_ts_sz cf <> running_sz.

(** Two handlers that differ at most in the batch they own. *)
Definition same_control (h1 h2 : TimestampRecoveryHandler) : Prop :=
  running_ts_sz_ h1 = running_ts_sz_ h2 /\
  record_ts_sz_ h1 = record_ts_sz_ h2 /\
  handler_valid_ h1 = handler_valid_ h2 /\
  new_batch_diff_from_orig_batch_ h1 = new_batch_diff_from_orig_batch_ h2.

(** Two runs that agree on everything but the batch built. *)
Definition same_outcome (r1 r2 : Run (Status * TimestampRecoveryHandler))
  : Prop :=
  match r1, r2 with
  | Done (s1, h1), Done (s2, h2) => s1 = s2 /\ same_control h1 h2
  | AssertFailure, AssertFailure => True
  | _, _ => False
  end.

(** A callback returned OK and left the handler valid, with its maps. *)
Definition keeps_going (h : TimestampRecoveryHandler)
    (r : Run (Status * TimestampRecoveryHandler)) : Prop :=
  exists h', r = Done (OK, h') /\ handler_valid_ h' = true /\
             running_ts_sz_ h' = running_ts_sz_ h /\
             record_ts_sz_ h' = record_ts_sz_ h.

(** A run stopped on an InvalidArgument status. *)
Definition stops_invalid (r : Run (Status * TimestampRecoveryHandler)) : Prop :=
  exists msg h', r = Done (InvalidArgument msg, h').

(** ** Further definitions: [DebugString] and the reconciled batch *)

(** [DebugString]: the [for] loop writes one line per pair to the stream
    [oss], whose content is returned. *)
Fixpoint DebugString_loop (pairs : list (uint32_t * size_t)) (oss : string)
  : string :=
  match pairs with
  | [] => oss
  | (cf_id, ts_sz) :: rest =>
      DebugString_loop rest
        (oss ++ "Column family: " ++ decimal cf_id
             ++ ", user-defined timestamp size: " ++ decimal ts_sz
             ++ endl)%string
  end.

Definition DebugString (r : UserDefinedTimestampSizeRecord) : string :=
  DebugString_loop (cf_to_ts_sz_ r) EmptyString.

(** The number of line breaks in a text. *)
Fixpoint line_breaks (s : string) : nat :=
  match s with
  | EmptyString => 0
  | String c rest =>
      (if Ascii.eqb c (ascii_of_nat 10) then 1 else 0) + line_breaks rest
  end%nat.

(** The key the rule prescribes for a user key of column family [cf]:
    untouched for a dropped column family or a no-op, padded with a
    minimum timestamp, or stripped of its recorded timestamp. *)
Definition reconciled_key (running_ts_sz record_ts_sz : gmap N N)
    (cf : uint32_t) (key : Slice) : Slice :=
  match running_ts_sz !! cf with
  | None => key
  | Some running_sz =>
      match reconciliation_rule (recorded_size record_ts_sz cf) running_sz with
      | Pad => key ++ min_timestamp running_sz
      | Strip =>
          firstn (length key - N.to_nat (recorded_size record_ts_sz cf)) key
      | _ => key
      end
  end.

(** An entry with each of its user keys replaced by the prescribed key. *)
Definition reconciled_entry (running_ts_sz record_ts_sz : gmap N N)
    (e : Entry) : Entry :=
  let rk := reconciled_key running_ts_sz record_ts_sz in
  match e with
  | Put cf key value => Put cf (rk cf key) value
  | Delete cf key => Delete cf (rk cf key)
  | SingleDelete cf key => SingleDelete cf (rk cf key)
  | DeleteRange cf begin_key end_key =>
      DeleteRange cf (rk cf begin_key) (rk cf end_key)
  | Merge cf key value => Merge cf (rk cf key) value
  | PutBlobIndex cf key value => PutBlobIndex cf (rk cf key) value
  | _ => e
  end.

(** A live column family whose running size is not the recorded one. *)
Definition inconsistent (running_ts_sz record_ts_sz : gmap N N)
    (cf : uint32_t) : Prop :=
  exists running_sz,
    running_ts_sz !! cf = Some running_sz /\
    recorded_size record_ts_sz cf <> running_sz.

(** What one callback that returned left behind: either OK, with the
    reconciled entries [es] appended and the changed flag raised exactly
    if they differ from the originals [orig], or the InvalidArgument of an
    unreconcilable column family. *)
Definition visit_effect (h h1 : TimestampRecoveryHandler) (s : Status)
    (orig es : list Entry) (cfs : list uint32_t) : Prop :=
  (s = OK /\
   new_batch_ h1 = (fun b => b ++ es) <$> new_batch_ h /\
   running_ts_sz_ h1 = running_ts_sz_ h /\
   record_ts_sz_ h1 = record_ts_sz_ h /\
   handler_valid_ h1 = true /\
   (new_batch_diff_from_orig_batch_ h1 = false
    <-> new_batch_diff_from_orig_batch_ h = false /\ es = orig)) \/
  (s = InvalidArgument unreconcilable_error /\
   exists cf, cf ∈ cfs /\
              unreconcilable (running_ts_sz_ h) (record_ts_sz_ h) cf).

(** * Properties of the fixed-width coding *)

(** Linear arithmetic over [N] and [Z] with division and modulo by constants. *)
Ltac lia_div := zify; Z.to_euclidean_division_equations; lia.

Section coding_facts.

Lemma to_N_low_byte (v : N) : Byte.to_N (low_byte v) = v mod 2 ^ 8.
Proof.
  unfold low_byte. change 255 with (N.ones 8). rewrite N.land_ones.
  destruct (Byte.of_N (v mod 2 ^ 8)) as [b|] eqn:E.
  - exact (Byte.to_of_N _ E).
  - apply Byte.of_N_None_iff in E.
    pose proof (N.mod_upper_bound v (2 ^ 8)) as Hlt.
    change (2 ^ 8) with 256 in *. lia.
Qed.

Lemma testbit_byte_at (v k n : N) :
  N.testbit (N.shiftl (N.shiftr v k mod 2 ^ 8) k) n
  = (k <=? n) && (n <? k + 8) && N.testbit v n.
Proof.
  destruct (N.leb_spec k n) as [Hk|Hk]; cbn [andb].
  - rewrite N.shiftl_spec_high' by assumption.
    destruct (N.ltb_spec n (k + 8)) as [Hn|Hn]; cbn [andb].
    + rewrite N.mod_pow2_bits_low by lia.
      rewrite N.shiftr_spec'. f_equal. lia.
    + apply N.mod_pow2_bits_high. lia.
  - apply N.shiftl_spec_low. assumption.
Qed.

Lemma testbit_mod_pow2 (v k n : N) :
  N.testbit (v mod 2 ^ k) n = (n <? k) && N.testbit v n.
Proof.
  destruct (N.ltb_spec n k); cbn [andb].
  - apply N.mod_pow2_bits_low; assumption.
  - apply N.mod_pow2_bits_high; assumption.
Qed.

Lemma testbit_to_N (b : byte) (n : N) :
  N.testbit (Byte.to_N b) n = (n <? 8) && N.testbit (Byte.to_N b) n.
Proof.
  rewrite <- testbit_mod_pow2. f_equal. symmetry. apply N.mod_small.
  pose proof (Byte.to_N_bounded b). change (2 ^ 8) with 256. lia.
Qed.

Lemma testbit_to_N_shiftl (b : byte) (k n : N) :
  N.testbit (N.shiftl (Byte.to_N b) k) n
  = (k <=? n) && (n <? k + 8) && N.testbit (N.shiftl (Byte.to_N b) k) n.
Proof.
  destruct (N.leb_spec k n) as [Hk|Hk]; cbn [andb].
  - destruct (N.ltb_spec n (k + 8)) as [Hn|Hn]; cbn [andb]; [reflexivity|].
    rewrite N.shiftl_spec_high' by assumption.
    rewrite testbit_to_N.
    destruct (N.ltb_spec (n - k) 8); [lia | reflexivity].
  - apply N.shiftl_spec_low. assumption.
Qed.

(** Closing a goal on bits once every term is guarded by comparisons. *)
Ltac bit_cases :=
  repeat match goal with
         | |- context [ (?a <=? ?b) ] => destruct (N.leb_spec a b)
         | |- context [ (?a <? ?b) ] => destruct (N.ltb_spec a b)
         end;
  cbn [andb orb]; try reflexivity; try lia;
  rewrite ?orb_false_r; try reflexivity.

Lemma DecodeFixed32_EncodeFixed32 (v : N) :
  DecodeFixed32 (low_byte v) (low_byte (N.shiftr v 8))
                (low_byte (N.shiftr v 16)) (low_byte (N.shiftr v 24))
  = v mod 2 ^ 32.
Proof.
  unfold DecodeFixed32. rewrite !to_N_low_byte.
  apply N.bits_inj. intros n.
  rewrite !N.lor_spec, !testbit_byte_at, !testbit_mod_pow2.
  destruct (N.testbit v n); rewrite ?andb_false_r, ?andb_true_r;
    [|reflexivity].
  bit_cases.
Qed.

Lemma DecodeFixed16_EncodeFixed16 (v : N) :
  DecodeFixed16 (low_byte v) (low_byte (N.shiftr v 8)) = v mod 2 ^ 16.
Proof.
  unfold DecodeFixed16. rewrite !to_N_low_byte.
  apply N.bits_inj. intros n.
  rewrite !N.lor_spec, !testbit_byte_at, !testbit_mod_pow2.
  destruct (N.testbit v n); rewrite ?andb_false_r, ?andb_true_r;
    [|reflexivity].
  bit_cases.
Qed.

Lemma DecodeFixed16_bound (b0 b1 : byte) : DecodeFixed16 b0 b1 < 2 ^ 16.
Proof.
  assert (E : DecodeFixed16 b0 b1 mod 2 ^ 16 = DecodeFixed16 b0 b1).
  { unfold DecodeFixed16. apply N.bits_inj. intros n.
    rewrite testbit_mod_pow2, !N.lor_spec.
    rewrite (testbit_to_N b0), (testbit_to_N_shiftl b1).
    destruct (N.ltb_spec n 16); cbn [andb]; [reflexivity|].
    symmetry. apply orb_false_iff; split; bit_cases. }
  rewrite <- E. apply N.mod_upper_bound. discriminate.
Qed.

Lemma DecodeFixed32_bound (b0 b1 b2 b3 : byte) :
  DecodeFixed32 b0 b1 b2 b3 < 2 ^ 32.
Proof.
  assert (E : DecodeFixed32 b0 b1 b2 b3 mod 2 ^ 32 = DecodeFixed32 b0 b1 b2 b3).
  { unfold DecodeFixed32. apply N.bits_inj. intros n.
    rewrite testbit_mod_pow2, !N.lor_spec.
    rewrite (testbit_to_N b0), (testbit_to_N_shiftl b1),
      (testbit_to_N_shiftl b2), (testbit_to_N_shiftl b3).
    destruct (N.ltb_spec n 32); cbn [andb]; [reflexivity|].
    symmetry. repeat (apply orb_false_iff; split); bit_cases. }
  rewrite <- E. apply N.mod_upper_bound. discriminate.
Qed.

End coding_facts.

(** * Properties of the record codec *)

Section codec_facts.

Implicit Types (pairs : list (uint32_t * size_t)) (src dst : list byte).

Lemma length_encode_pair (p : uint32_t * size_t) :
  length (encode_pair p) = 6%nat.
Proof. reflexivity. Qed.

Lemma length_flat_map_encode_pair pairs :
  length (flat_map encode_pair pairs) = (6 * length pairs)%nat.
Proof.
  induction pairs as [|p pairs IH]; [reflexivity|].
  cbn [flat_map]. rewrite length_app, length_encode_pair, IH.
  cbn [length]. lia.
Qed.

(** [EncodeTo] writes the six bytes of each pair, in order, provided every
    assertion of the loop holds. *)
Lemma EncodeTo_loop_Done pairs dst :
  Forall (fun p => snd p <> 0) pairs ->
  EncodeTo_loop pairs dst = Done (dst ++ flat_map encode_pair pairs).
Proof.
  intros Hnz. revert dst.
  induction Hnz as [|[cf_id ts_sz] pairs Hp _ IH]; intros dst; cbn [EncodeTo_loop].
  - now rewrite app_nil_r.
  - cbn [snd] in Hp. apply N.eqb_neq in Hp. rewrite Hp.
    rewrite IH. unfold PutFixed16, PutFixed32, static_cast_uint16.
    cbn [flat_map]. unfold encode_pair at 2. cbn [fst snd].
    now rewrite <- !app_assoc.
Qed.

Lemma EncodeTo_loop_Done_inv pairs dst out :
  EncodeTo_loop pairs dst = Done out -> Forall (fun p => snd p <> 0) pairs.
Proof.
  revert dst. induction pairs as [|[cf_id ts_sz] pairs IH]; intros dst H.
  - constructor.
  - cbn [EncodeTo_loop] in H. destruct (N.eqb_spec ts_sz 0); [discriminate|].
    constructor; [assumption | eapply IH; eassumption].
Qed.

(** The groups of an encoding are the pairs, each reduced to its width. *)
Lemma groups_of_encode pairs :
  groups_of (flat_map encode_pair pairs)
  = map (fun p => (fst p mod 2 ^ 32, snd p mod 2 ^ 16)) pairs.
Proof.
  induction pairs as [|[cf_id ts_sz] pairs IH]; [reflexivity|].
  cbn [flat_map encode_pair EncodeFixed32 EncodeFixed16 app groups_of map
         fst snd].
  rewrite IH, DecodeFixed32_EncodeFixed32, DecodeFixed16_EncodeFixed16.
  f_equal. f_equal. change 65536 with (2 ^ 16). apply N.Div0.mod_mod.
Qed.

(** Six bytes at a time: an induction principle for byte strings. *)
Lemma six_bytes_ind (P : list byte -> Prop) :
  (forall src, (length src < 6)%nat -> P src) ->
  (forall b0 b1 b2 b3 b4 b5 rest,
      P rest -> P (b0 :: b1 :: b2 :: b3 :: b4 :: b5 :: rest)) ->
  forall src, P src.
Proof.
  intros Hshort Hstep src.
  assert (H : forall n src, (length src <= n)%nat -> P src).
  { clear src. induction n as [|n IH]; intros src Hn.
    - apply Hshort. lia.
    - destruct src as [|b0 [|b1 [|b2 [|b3 [|b4 [|b5 rest]]]]]];
        try (apply Hshort; cbn [length]; lia).
      apply Hstep, IH. cbn [length] in Hn. lia. }
  exact (H (length src) src (le_n _)).
Qed.

Lemma length_groups_of src :
  N.of_nat (length (groups_of src)) = N.of_nat (length src) / 6.
Proof.
  induction src as [src Hshort | b0 b1 b2 b3 b4 b5 rest IH] using six_bytes_ind.
  - destruct src as [|b0 [|b1 [|b2 [|b3 [|b4 [|b5 rest]]]]]];
      cbn [length] in Hshort; try lia; cbn [groups_of length];
      symmetry; apply N.div_small; lia.
  - cbn [groups_of length]. lia_div.
Qed.

Lemma DecodeFrom_loop_0 src pairs : DecodeFrom_loop 0 src pairs = (OK, src, pairs).
Proof. reflexivity. Qed.

(** As long as six bytes remain for every round, the loop cannot fail. *)
Lemma DecodeFrom_loop_OK (n : nat) src pairs :
  (6 * n <= length src)%nat ->
  DecodeFrom_loop n src pairs
  = (OK, skipn (6 * n) src, pairs ++ firstn n (groups_of src)).
Proof.
  revert src pairs. induction n as [|n IH]; intros src pairs Hlen.
  - cbn [DecodeFrom_loop firstn]. now rewrite app_nil_r.
  - destruct src as [|b0 [|b1 [|b2 [|b3 [|b4 [|b5 rest]]]]]];
      cbn [length] in Hlen; try lia.
    cbn [DecodeFrom_loop GetFixed32 GetFixed16].
    rewrite IH by lia.
    replace (6 * S n)%nat with (6 + 6 * n)%nat by lia.
    cbn [skipn Nat.add groups_of firstn].
    rewrite <- app_assoc. cbn [app]. unfold static_cast_size_t.
    rewrite (N.mod_small (DecodeFixed16 b4 b5)); [reflexivity|].
    pose proof (DecodeFixed16_bound b4 b5).
    change (2 ^ 16) with 65536 in *. change (2 ^ 64) with 18446744073709551616. lia.
Qed.

(** The pairs held before are a prefix of the pairs held afterwards. *)
Lemma DecodeFrom_loop_app (n : nat) src (P Q : list (uint32_t * size_t)) :
  DecodeFrom_loop n src (P ++ Q)
  = (let '(s, rest, q) := DecodeFrom_loop n src Q in (s, rest, P ++ q)).
Proof.
  revert src Q. induction n as [|n IH]; intros src Q; cbn [DecodeFrom_loop].
  - reflexivity.
  - destruct (GetFixed32 src) as [[cf_id src1]|]; [|reflexivity].
    destruct (GetFixed16 src1) as [[ts_sz src2]|]; [|reflexivity].
    rewrite <- app_assoc. apply IH.
Qed.

(** The count of the loop never exceeds the number of groups. *)
Lemma static_cast_int_le (v : N) : (static_cast_int v <= Z.of_N v)%Z.
Proof.
  unfold static_cast_int. cbv zeta.
  destruct (Z.ltb_spec (Z.of_N v mod 2 ^ 32) (2 ^ 31)); lia_div.
Qed.

Lemma static_cast_int_small (v : N) :
  v < 2 ^ 31 -> static_cast_int v = Z.of_N v.
Proof.
  intros Hv. unfold static_cast_int. cbv zeta.
  change (2 ^ 31) with 2147483648 in Hv.
  rewrite Z.mod_small by lia.
  destruct (Z.ltb_spec (Z.of_N v) (2 ^ 31)); lia.
Qed.

(** [DecodeFrom] on every input: the length check, then as many groups as
    the [int] count allows. *)
Lemma DecodeFrom_unfold src (r : UserDefinedTimestampSizeRecord) :
  let total_size := N.of_nat (length src) in
  let rounds := Z.to_nat (static_cast_int (total_size / 6)) in
  DecodeFrom src r
  = if total_size mod 6 =? 0
    then (OK, skipn (6 * rounds) src,
          mkRecord (cf_to_ts_sz_ r ++ firstn rounds (groups_of src)))
    else (Corruption (length_error total_size), src, r).
Proof.
  cbv zeta. unfold DecodeFrom. change kSizePerColumnFamily with 6.
  destruct (N.eqb_spec (N.of_nat (length src) mod 6) 0) as [E|E]; cbn [negb];
    [|reflexivity].
  rewrite DecodeFrom_loop_OK; [reflexivity|].
  pose proof (static_cast_int_le (N.of_nat (length src) / 6)).
  lia_div.
Qed.

End codec_facts.

(** * The record codec: round trip, length check, truncation *)

Lemma map_reduce_in_range (pairs : list (uint32_t * size_t)) :
  Forall in_wire_range pairs ->
  map (fun p => (fst p mod 2 ^ 32, snd p mod 2 ^ 16)) pairs = pairs.
Proof.
  induction 1 as [|[cf_id ts_sz] pairs [Hcf Hts] _ IH]; [reflexivity|].
  cbn [map fst snd] in *. unfold is_uint32 in Hcf.
  rewrite IH, (N.mod_small cf_id), (N.mod_small ts_sz); [reflexivity | |];
    [change (2 ^ 16) with 65536 | ]; lia.
Qed.

Lemma in_wire_range_nonzero (pairs : list (uint32_t * size_t)) :
  Forall in_wire_range pairs -> Forall (fun p => snd p <> 0) pairs.
Proof.
  intros H. eapply Forall_impl; [exact H|]. intros p [_ Hp]. lia.
Qed.

(** Decoding the encoding of [pairs] into a record that holds [P], when
    the number of pairs fits the [int] count of [DecodeFrom]. *)
Lemma DecodeFrom_encoding (pairs P : list (uint32_t * size_t)) :
  N.of_nat (length pairs) < 2 ^ 31 ->
  DecodeFrom (flat_map encode_pair pairs) (mkRecord P)
  = (OK, [], mkRecord (P ++ map (fun p => (fst p mod 2 ^ 32, snd p mod 2 ^ 16))
                                 pairs)).
Proof.
  intros Hn. rewrite DecodeFrom_unfold. cbv zeta.
  rewrite length_flat_map_encode_pair.
  replace (N.of_nat (6 * length pairs)) with (6 * N.of_nat (length pairs)) by lia.
  replace (6 * N.of_nat (length pairs) mod 6) with 0 by lia_div.
  replace (6 * N.of_nat (length pairs) / 6) with (N.of_nat (length pairs))
    by lia_div.
  rewrite static_cast_int_small by assumption.
  replace (Z.to_nat (Z.of_N (N.of_nat (length pairs)))) with (length pairs)
    by lia.
  cbn [N.eqb cf_to_ts_sz_].
  rewrite skipn_all2 by (rewrite length_flat_map_encode_pair; lia).
  rewrite firstn_all2; [now rewrite groups_of_encode|].
  rewrite groups_of_encode, length_map. lia.
Qed.

(** C3 (amended).  For every sequence of fewer than [2^31] pairs
    [(cf_id, ts_sz)] with [cf_id] a 32-bit value and [0 < ts_sz <= 65535],
    [EncodeTo] succeeds and [DecodeFrom] on its output, into a freshly
    constructed record, consumes the whole input and yields exactly the
    original pairs in the original order. *)
Theorem decode_encode_roundtrip (pairs : list (uint32_t * size_t)) :
  Forall in_wire_range pairs ->
  N.of_nat (length pairs) < 2 ^ 31 ->
  exists bytes,
    EncodeTo (mkRecord pairs) [] = Done bytes /\
    DecodeFrom bytes empty_record = (OK, [], mkRecord pairs).
Proof.
  intros Hrange Hcount. exists (flat_map encode_pair pairs). split.
  - unfold EncodeTo. cbn [cf_to_ts_sz_].
    now rewrite EncodeTo_loop_Done by (apply in_wire_range_nonzero; assumption).
  - unfold empty_record. rewrite DecodeFrom_encoding by assumption.
    now rewrite map_reduce_in_range.
Qed.

Lemma decode_encode_roundtrip_witness :
  exists bytes,
    EncodeTo (mkRecord [(1, 8); (258, 65535); (4294967295, 3)]) [] = Done bytes /\
    DecodeFrom bytes empty_record
    = (OK, [], mkRecord [(1, 8); (258, 65535); (4294967295, 3)]).
Proof.
  apply (decode_encode_roundtrip [(1, 8); (258, 65535); (4294967295, 3)]).
  - repeat constructor; unfold is_uint32; cbn [fst snd]; lia.
  - cbn [length]. lia.
Defined.

(** With [2^31] pairs the count of [DecodeFrom], an [int], is negative:
    the loop does not run and nothing is decoded. *)
Lemma DecodeFrom_2p31_pairs (count : nat) :
  N.of_nat count = 2147483648 ->
  Forall in_wire_range (repeat (1, 1) count) /\
  exists bytes,
    EncodeTo (mkRecord (repeat (1, 1) count)) [] = Done bytes /\
    DecodeFrom bytes empty_record = (OK, bytes, empty_record) /\
    empty_record <> mkRecord (repeat (1, 1) count).
Proof.
  intros Hcount.
  assert (Hrange : Forall in_wire_range (repeat (1, 1) count)).
  { apply List.Forall_forall. intros p Hp. apply repeat_spec in Hp. subst p.
    unfold in_wire_range, is_uint32. cbn [fst snd]. lia. }
  split; [exact Hrange|].
  exists (flat_map encode_pair (repeat (1, 1) count)). split; [|split].
  - unfold EncodeTo. cbn [cf_to_ts_sz_].
    now rewrite EncodeTo_loop_Done by (apply in_wire_range_nonzero; assumption).
  - rewrite DecodeFrom_unfold. cbv zeta.
    rewrite length_flat_map_encode_pair, repeat_length.
    replace (N.of_nat (6 * count)) with 12884901888 by lia.
    change (12884901888 mod 6 =? 0) with true.
    change (Z.to_nat (static_cast_int (12884901888 / 6))) with 0%nat.
    cbv iota. rewrite Nat.mul_0_r, skipn_O, firstn_O.
    reflexivity.
  - intros E. apply (f_equal (fun r => length (cf_to_ts_sz_ r))) in E.
    cbn [empty_record cf_to_ts_sz_] in E. rewrite repeat_length in E.
    cbn [length] in E. lia.
Qed.

Lemma roundtrip_fails_for_2p31_pairs :
  let pairs := repeat (1, 1) (N.to_nat 2147483648) in
  Forall in_wire_range pairs /\
  exists bytes,
    EncodeTo (mkRecord pairs) [] = Done bytes /\
    DecodeFrom bytes empty_record = (OK, bytes, empty_record) /\
    empty_record <> mkRecord pairs.
Proof.
  exact (DecodeFrom_2p31_pairs (N.to_nat 2147483648) (N2Nat.id 2147483648)).
Qed.

Lemma contains_middle (a b c : string) : contains (a ++ b ++ c) b.
Proof. exists a, c. reflexivity. Qed.

Lemma string_append_assoc (a b c : string) :
  ((a ++ b) ++ c = a ++ b ++ c)%string.
Proof.
  induction a as [|ch a IH]; [reflexivity|].
  change (String ch ((a ++ b) ++ c) = String ch (a ++ b ++ c))%string.
  now rewrite IH.
Qed.

Lemma length_error_contains (total_size : N) :
  contains (length_error total_size) (decimal total_size) /\
  contains (length_error total_size) "6".
Proof.
  unfold length_error. split.
  - apply contains_middle.
  - exists ("User-defined timestamp size record length: "
            ++ decimal total_size ++ " is not a multiple of ")%string, endl.
    change (decimal kSizePerColumnFamily) with "6"%string.
    now rewrite !string_append_assoc.
Qed.

(** C4 (amended).  [DecodeFrom] returns a Corruption status exactly when
    the input length is not a multiple of 6; the message then spells the
    actual length in decimal and the required multiple 6, and neither the
    input nor the record is touched.  When the length is a multiple of 6
    and spells fewer than [2^31] groups, it succeeds, consumes the input,
    and appends exactly length/6 pairs: the consecutive 4-byte/2-byte
    groups in input order. *)
Theorem DecodeFrom_length_check (src : list byte)
    (r : UserDefinedTimestampSizeRecord) :
  let total_size := N.of_nat (length src) in
  (IsCorruption (DecodeFrom src r).1.1 <-> total_size mod 6 <> 0) /\
  if total_size mod 6 =? 0 then
    total_size / 6 < 2 ^ 31 ->
    DecodeFrom src r
    = (OK, [], mkRecord (cf_to_ts_sz_ r ++ groups_of src)) /\
    N.of_nat (length (groups_of src)) = total_size / 6
  else
    DecodeFrom src r = (Corruption (length_error total_size), src, r) /\
    contains (length_error total_size) (decimal total_size) /\
    contains (length_error total_size) "6".
Proof.
  cbv zeta. rewrite DecodeFrom_unfold. cbv zeta.
  pose proof (length_groups_of src) as Hgroups.
  destruct (N.eqb_spec (N.of_nat (length src) mod 6) 0) as [E|E].
  - split; [split; [intros [msg Hmsg]; discriminate | contradiction]|].
    intros Hcount. rewrite static_cast_int_small by assumption.
    split; [|assumption].
    replace (Z.to_nat (Z.of_N (N.of_nat (length src) / 6)))
      with (length (groups_of src)) by lia.
    rewrite skipn_all2 by lia_div. now rewrite firstn_all.
  - split; [split; [trivial | intros _; eexists; reflexivity]|].
    split; [reflexivity | apply length_error_contains].
Qed.

Lemma DecodeFrom_length_check_witness :
  DecodeFrom [x01; x00; x00; x00; x08; x00] empty_record
  = (OK, [], mkRecord [(1, 8)]) /\
  N.of_nat (length (groups_of [x01; x00; x00; x00; x08; x00])) = 1.
Proof.
  destruct (DecodeFrom_length_check [x01; x00; x00; x00; x08; x00]
              empty_record) as [_ Hsuccess].
  apply Hsuccess. vm_compute. reflexivity.
Defined.

(** An input of [6 * 2^31] zero bytes: the length is a multiple of 6 and
    spells [2^31] groups, yet [DecodeFrom] succeeds without reading any. *)
Lemma DecodeFrom_zero_bytes (count : nat) :
  N.of_nat count = 12884901888 ->
  N.of_nat (length (repeat x00 count)) mod 6 = 0 /\
  N.of_nat (length (repeat x00 count)) / 6 = 2147483648 /\
  DecodeFrom (repeat x00 count) empty_record
  = (OK, repeat x00 count, empty_record).
Proof.
  intros Hcount. rewrite DecodeFrom_unfold. cbv zeta.
  rewrite repeat_length, Hcount.
  change (12884901888 mod 6 =? 0) with true.
  change (Z.to_nat (static_cast_int (12884901888 / 6))) with 0%nat.
  cbv iota. rewrite Nat.mul_0_r, skipn_O, firstn_O.
  repeat split.
Qed.

Lemma DecodeFrom_skips_2p31_groups :
  let src := repeat x00 (N.to_nat 12884901888) in
  N.of_nat (length src) mod 6 = 0 /\
  N.of_nat (length src) / 6 = 2147483648 /\
  DecodeFrom src empty_record = (OK, src, empty_record).
Proof.
  exact (DecodeFrom_zero_bytes (N.to_nat 12884901888) (N2Nat.id 12884901888)).
Qed.

(** C5 (amended).  Every timestamp size of a record that [EncodeTo]
    encodes is strictly positive: the loop asserts it for each pair.
    [DecodeFrom] makes no such check: a successful call keeps the pairs
    held before and appends pairs whose column family id is a 32-bit value
    and whose timestamp size lies between 0 and 65535, both included. *)
Theorem codec_timestamp_sizes (r : UserDefinedTimestampSizeRecord)
    (src dst : list byte) :
  (forall out, EncodeTo r dst = Done out ->
               Forall (fun p => 0 < snd p) (cf_to_ts_sz_ r)) /\
  (forall rest r', DecodeFrom src r = (OK, rest, r') ->
     exists decoded,
       cf_to_ts_sz_ r' = cf_to_ts_sz_ r ++ decoded /\
       Forall (fun p => is_uint32 (fst p) /\ 0 <= snd p <= 65535) decoded).
Proof.
  split.
  - intros out Hout. apply EncodeTo_loop_Done_inv in Hout.
    eapply Forall_impl; [exact Hout|]. intros p Hp. cbn beta in Hp. lia.
  - intros rest r' Hdec. rewrite DecodeFrom_unfold in Hdec. cbv zeta in Hdec.
    destruct (N.of_nat (length src) mod 6 =? 0); [|discriminate].
    injection Hdec as _ <-. eexists. split; [reflexivity|].
    apply Forall_take. clear.
    induction src as [src Hshort | b0 b1 b2 b3 b4 b5 rest IH]
      using six_bytes_ind.
    + destruct src as [|b0 [|b1 [|b2 [|b3 [|b4 [|b5 rest]]]]]];
        cbn [length] in Hshort; try lia; constructor.
    + cbn [groups_of]. constructor; [|exact IH]. cbn [fst snd].
      pose proof (DecodeFixed32_bound b0 b1 b2 b3).
      pose proof (DecodeFixed16_bound b4 b5).
      unfold is_uint32. change (2 ^ 16) with 65536 in *. lia.
Qed.

Lemma codec_timestamp_sizes_witness :
  Forall (fun p => 0 < snd p) [(7, 4)] /\
  exists decoded,
    [(0, 0)] = [] ++ decoded /\
    Forall (fun p => is_uint32 (fst p) /\ 0 <= snd p <= 65535) decoded.
Proof.
  destruct (codec_timestamp_sizes (mkRecord [(7, 4)]) [] []) as [Henc _].
  destruct (codec_timestamp_sizes empty_record
              [x00; x00; x00; x00; x00; x00] []) as [_ Hdec].
  split.
  - apply (Henc [x07; x00; x00; x00; x04; x00]). reflexivity.
  - apply (Hdec [] (mkRecord [(0, 0)])). reflexivity.
Defined.

(** Six zero bytes decode successfully to a pair whose timestamp size
    is 0. *)
Lemma DecodeFrom_yields_zero_timestamp_size :
  DecodeFrom [x00; x00; x00; x00; x00; x00] empty_record
  = (OK, [], mkRecord [(0, 0)]) /\
  ~ Forall (fun p => 0 < snd p) (cf_to_ts_sz_ (mkRecord [(0, 0)])).
Proof.
  split; [reflexivity|].
  intros H. apply Forall_inv in H. cbn [snd] in H. lia.
Qed.

(** C9.  [DecodeFrom] appends: if the input decodes to the pairs [Q] when
    the record is fresh, then on a record holding [P] it leaves [P ++ Q];
    so the record afterwards is [Q] itself only when [P] is empty.  In
    particular decoding the encoding of a record gives that record back
    only if it starts from an empty one. *)
Theorem DecodeFrom_appends (src rest : list byte)
    (P Q : list (uint32_t * size_t)) :
  DecodeFrom src empty_record = (OK, rest, mkRecord Q) ->
  DecodeFrom src (mkRecord P) = (OK, rest, mkRecord (P ++ Q)) /\
  (DecodeFrom src (mkRecord P) = (OK, rest, mkRecord Q) <-> P = []).
Proof.
  intros Hfresh.
  assert (Happ : DecodeFrom src (mkRecord P) = (OK, rest, mkRecord (P ++ Q))).
  { rewrite DecodeFrom_unfold in *. cbv zeta in *.
    destruct (N.of_nat (length src) mod 6 =? 0); [|discriminate].
    cbn [cf_to_ts_sz_ empty_record app] in *.
    injection Hfresh as <- <-. reflexivity. }
  split; [exact Happ|]. rewrite Happ. split.
  - intros E. injection E as E.
    apply (f_equal (@length _)) in E. rewrite length_app in E.
    destruct P; [reflexivity | cbn [length] in E; lia].
  - intros ->. reflexivity.
Qed.

Lemma DecodeFrom_appends_witness :
  DecodeFrom [x01; x00; x00; x00; x08; x00] (mkRecord [(5, 2)])
  = (OK, [], mkRecord ([(5, 2)] ++ [(1, 8)])) /\
  (DecodeFrom [x01; x00; x00; x00; x08; x00] (mkRecord [(5, 2)])
   = (OK, [], mkRecord [(1, 8)]) <-> [(5, 2)] = []).
Proof.
  apply (DecodeFrom_appends [x01; x00; x00; x00; x08; x00] [] [(5, 2)] [(1, 8)]).
  reflexivity.
Defined.

(** C10.  [EncodeTo] appends, for every pair of the record and in order,
    exactly six bytes: the 4-byte encoding of [cf_id] and the 2-byte
    encoding of [ts_sz mod 65536].  Hence for a timestamp size above 65535
    only the low 16 bits reach the wire and decoding gives back
    [ts_sz mod 65536], not [ts_sz]. *)
Theorem EncodeTo_truncates_timestamp_size (pairs : list (uint32_t * size_t))
    (dst : list byte) :
  Forall (fun p => snd p <> 0) pairs ->
  EncodeTo (mkRecord pairs) dst
  = Done (dst ++ flat_map
                   (fun p => EncodeFixed32 (fst p)
                             ++ EncodeFixed16 (snd p mod 65536)) pairs) /\
  Forall (fun p => length (EncodeFixed32 (fst p)
                           ++ EncodeFixed16 (snd p mod 65536)) = 6%nat) pairs /\
  forall cf_id ts_sz, In (cf_id, ts_sz) pairs -> is_uint32 cf_id ->
    65535 < ts_sz ->
    exists bytes,
      EncodeTo (mkRecord [(cf_id, ts_sz)]) [] = Done bytes /\
      DecodeFrom bytes empty_record
      = (OK, [], mkRecord [(cf_id, ts_sz mod 65536)]) /\
      ts_sz mod 65536 <> ts_sz.
Proof.
  intros Hnz. split; [|split].
  - unfold EncodeTo. cbn [cf_to_ts_sz_]. now apply EncodeTo_loop_Done.
  - apply List.Forall_forall. reflexivity.
  - intros cf_id ts_sz _ Hcf Hts.
    exists (flat_map encode_pair [(cf_id, ts_sz)]). split; [|split].
    + unfold EncodeTo. cbn [cf_to_ts_sz_]. rewrite EncodeTo_loop_Done.
      * reflexivity.
      * repeat constructor. cbn [snd]. lia.
    + unfold empty_record. rewrite DecodeFrom_encoding by (cbn [length]; lia).
      cbn [map app fst snd]. unfold is_uint32 in Hcf.
      rewrite (N.mod_small cf_id) by assumption. reflexivity.
    + lia_div.
Qed.

Lemma EncodeTo_truncates_timestamp_size_witness :
  EncodeTo (mkRecord [(3, 65537)]) []
  = Done ([] ++ flat_map
                  (fun p => EncodeFixed32 (fst p)
                            ++ EncodeFixed16 (snd p mod 65536)) [(3, 65537)]) /\
  exists bytes,
    EncodeTo (mkRecord [(3, 65537)]) [] = Done bytes /\
    DecodeFrom bytes empty_record = (OK, [], mkRecord [(3, 65537 mod 65536)]) /\
    65537 mod 65536 <> 65537.
Proof.
  destruct (EncodeTo_truncates_timestamp_size [(3, 65537)] [])
    as (Henc & _ & Hdec).
  - repeat constructor. cbn [snd]. lia.
  - split; [exact Henc|].
    apply (Hdec 3 65537); [left; reflexivity | unfold is_uint32; lia | lia].
Defined.

(** * Properties of the reconciliation rule and of the handler *)

Section rule_facts.

Lemma reconciliation_rule_NoOp (recorded_sz running_sz : N) :
  reconciliation_rule recorded_sz running_sz = NoOp
  <-> recorded_sz = running_sz.
Proof.
  unfold reconciliation_rule.
  destruct (N.eqb_spec recorded_sz 0), (N.ltb_spec 0 running_sz),
    (N.ltb_spec 0 recorded_sz), (N.eqb_spec running_sz 0),
    (N.eqb_spec recorded_sz running_sz); cbn [andb];
    split; intros; try discriminate; try reflexivity; lia.
Qed.

Lemma reconciliation_rule_Pad (recorded_sz running_sz : N) :
  reconciliation_rule recorded_sz running_sz = Pad
  <-> recorded_sz = 0 /\ 0 < running_sz.
Proof.
  unfold reconciliation_rule.
  destruct (N.eqb_spec recorded_sz 0), (N.ltb_spec 0 running_sz),
    (N.ltb_spec 0 recorded_sz), (N.eqb_spec running_sz 0),
    (N.eqb_spec recorded_sz running_sz); cbn [andb];
    split; intros; try discriminate; try reflexivity; lia.
Qed.

Lemma reconciliation_rule_Strip (recorded_sz running_sz : N) :
  reconciliation_rule recorded_sz running_sz = Strip
  <-> 0 < recorded_sz /\ running_sz = 0.
Proof.
  unfold reconciliation_rule.
  destruct (N.eqb_spec recorded_sz 0), (N.ltb_spec 0 running_sz),
    (N.ltb_spec 0 recorded_sz), (N.eqb_spec running_sz 0),
    (N.eqb_spec recorded_sz running_sz); cbn [andb];
    split; intros; try discriminate; try reflexivity; lia.
Qed.

Lemma reconciliation_rule_Fail (recorded_sz running_sz : N) :
  reconciliation_rule recorded_sz running_sz = Fail
  <-> 0 < recorded_sz /\ 0 < running_sz /\ recorded_sz <> running_sz.
Proof.
  unfold reconciliation_rule.
  destruct (N.eqb_spec recorded_sz 0), (N.ltb_spec 0 running_sz),
    (N.ltb_spec 0 recorded_sz), (N.eqb_spec running_sz 0),
    (N.eqb_spec recorded_sz running_sz); cbn [andb];
    split; intros; try discriminate; try reflexivity; lia.
Qed.

End rule_facts.

(** C6.  The per-key reconciliation of a valid handler, for a column
    family with running size [running_sz] and recorded size [recorded_sz]
    (0 when not recorded), follows the five rows: both zero, or both equal
    and nonzero: the key is passed on unchanged; recorded zero and running
    positive: the key followed by [running_sz] zero bytes; recorded
    positive and running zero, for a key of at least [recorded_sz] bytes:
    the key without its last [recorded_sz] bytes; both nonzero and
    unequal: an InvalidArgument status. *)
Theorem reconciliation_five_rows (h : TimestampRecoveryHandler) (cf : uint32_t)
    (key : list byte) (recorded_sz running_sz : size_t) :
  handler_valid_ h = true ->
  running_ts_sz_ h !! cf = Some running_sz ->
  recorded_size (record_ts_sz_ h) cf = recorded_sz ->
  (recorded_sz = 0 -> running_sz = 0 ->
   ReconcileTimestampDiscrepancy h cf key = Done (OK, key, h)) /\
  (0 < recorded_sz -> recorded_sz = running_sz ->
   ReconcileTimestampDiscrepancy h cf key = Done (OK, key, h)) /\
  (recorded_sz = 0 -> 0 < running_sz ->
   ReconcileTimestampDiscrepancy h cf key
   = Done (OK, key ++ repeat x00 (N.to_nat running_sz), mark_changed h)) /\
  (0 < recorded_sz -> running_sz = 0 ->
   recorded_sz <= N.of_nat (length key) ->
   exists stripped suffix,
     key = stripped ++ suffix /\
     N.of_nat (length suffix) = recorded_sz /\
     ReconcileTimestampDiscrepancy h cf key
     = Done (OK, stripped, mark_changed h)) /\
  (0 < recorded_sz -> 0 < running_sz -> recorded_sz <> running_sz ->
   exists msg,
     ReconcileTimestampDiscrepancy h cf key
     = Done (InvalidArgument msg, key, h)).
Proof.
  intros Hvalid Hrunning Hrecorded.
  unfold ReconcileTimestampDiscrepancy, reconcile.
  rewrite Hvalid, Hrunning. cbn [negb]. fold (recorded_size (record_ts_sz_ h) cf).
  rewrite Hrecorded. repeat split.
  - intros -> ->. reflexivity.
  - intros Hpos <-.
    now rewrite (proj2 (reconciliation_rule_NoOp recorded_sz recorded_sz)).
  - intros H0 Hpos.
    now rewrite (proj2 (reconciliation_rule_Pad recorded_sz running_sz)).
  - intros Hpos H0 Hlen.
    rewrite (proj2 (reconciliation_rule_Strip recorded_sz running_sz)) by auto.
    destruct (N.ltb_spec (N.of_nat (length key)) recorded_sz); [lia|].
    exists (firstn (length key - N.to_nat recorded_sz) key),
      (skipn (length key - N.to_nat recorded_sz) key).
    split; [now rewrite firstn_skipn|]. split; [|reflexivity].
    rewrite length_skipn. lia.
  - intros Hrec Hrun Hne.
    rewrite (proj2 (reconciliation_rule_Fail recorded_sz running_sz)) by auto.
    eexists. reflexivity.
Qed.

Lemma reconciliation_five_rows_witness :
  exists stripped suffix,
    [x61; x62; x00; x00] = stripped ++ suffix /\
    N.of_nat (length suffix) = 2 /\
    ReconcileTimestampDiscrepancy
      (new_TimestampRecoveryHandler {[ 7 := 0 ]} {[ 7 := 2 ]}) 7
      [x61; x62; x00; x00]
    = Done (OK, stripped,
            mark_changed (new_TimestampRecoveryHandler {[ 7 := 0 ]} {[ 7 := 2 ]})).
Proof.
  destruct (reconciliation_five_rows
              (new_TimestampRecoveryHandler {[ 7 := 0 ]} {[ 7 := 2 ]}) 7
              [x61; x62; x00; x00] 2 0)
    as (_ & _ & _ & Hstrip & _); [reflexivity .. |].
  apply Hstrip; [lia | reflexivity | cbn [length]; lia].
Defined.

Section handler_facts.

Implicit Types (h : TimestampRecoveryHandler) (e : Entry) (batch : WriteBatch).

Lemma append_entries_nil h : append_entries h [] = h.
Proof.
  destruct h as [run rec [b|] v d]; unfold append_entries; cbn;
    [rewrite app_nil_r|]; reflexivity.
Qed.

Lemma append_entry_entries h e (es : list Entry) :
  append_entries (append_entry h e) es = append_entries h (e :: es).
Proof.
  destruct h as [run rec [b|] v d]; unfold append_entries, append_entry; cbn;
    [rewrite <- app_assoc|]; reflexivity.
Qed.

Lemma Reconcile_settled h cf (key : list byte) :
  handler_valid_ h = true ->
  settled (running_ts_sz_ h) (record_ts_sz_ h) cf ->
  ReconcileTimestampDiscrepancy h cf key = Done (OK, key, h).
Proof.
  intros Hvalid [Hdropped | Hsame]; unfold ReconcileTimestampDiscrepancy;
    rewrite Hvalid; cbn [negb].
  - now rewrite Hdropped.
  - rewrite Hsame. unfold reconcile, recorded_size.
    now rewrite (proj2 (reconciliation_rule_NoOp _ _) eq_refl).
Qed.

Lemma visit_settled h e :
  handler_valid_ h = true ->
  (forall cf, entry_cf e = Some cf ->
              settled (running_ts_sz_ h) (record_ts_sz_ h) cf) ->
  visit h e = Done (OK, if is_mutation e then append_entry h e else h).
Proof.
  intros Hvalid Hcf.
  destruct e; cbn [visit is_mutation entry_cf]; try reflexivity;
    unfold PutCF, DeleteCF, SingleDeleteCF, DeleteRangeCF, MergeCF,
      PutBlobIndexCF, on_key;
    rewrite ?Reconcile_settled by (auto using eq_refl); cbn;
    rewrite ?Reconcile_settled by (auto using eq_refl); reflexivity.
Qed.

Lemma Forall_referenced_cfs_cons (P : N -> Prop) e batch :
  Forall P (referenced_cfs (e :: batch)) ->
  (forall cf, entry_cf e = Some cf -> P cf) /\ Forall P (referenced_cfs batch).
Proof.
  unfold referenced_cfs. cbn [omap list_omap].
  destruct (entry_cf e) as [cf|].
  - intros [Hcf Hall]%Forall_cons. split; [|exact Hall].
    now intros ? [= <-].
  - intros Hall. split; [discriminate | exact Hall].
Qed.

Lemma Iterate_settled batch h :
  handler_valid_ h = true ->
  Forall (settled (running_ts_sz_ h) (record_ts_sz_ h)) (referenced_cfs batch) ->
  Iterate batch h = Done (OK, append_entries h (mutations batch)).
Proof.
  revert h. induction batch as [|e batch IH]; intros h Hvalid Hall.
  - cbn [Iterate]. change (mutations []) with (@nil Entry).
    now rewrite append_entries_nil.
  - apply Forall_referenced_cfs_cons in Hall as [Hcf Hall].
    cbn [Iterate]. rewrite visit_settled by assumption.
    cbn [mbind Run_bind ok]. unfold mutations. rewrite filter_cons.
    destruct (decide (is_mutation e = true)) as [Hm|Hm].
    + rewrite Hm, IH by assumption. now rewrite append_entry_entries.
    + apply not_true_is_false in Hm. rewrite Hm. now apply IH.
Qed.

End handler_facts.

(** C1 (amended).  If every column family referenced by the batch has a
    running timestamp size equal to its recorded one, the replay of the
    batch through a fresh handler succeeds and accumulates exactly the
    mutations of the batch (same kinds, column families, keys, values and
    order), the handler stays valid, and its changed flag stays false.
    [TransferNewBatch] asserts that flag: on this handler the transfer is
    an assertion failure, and on any handler it hands the batch over
    exactly when the changed flag is true. *)
Theorem consistent_batch_replay (batch : WriteBatch)
    (running_ts_sz record_ts_sz : gmap N N) :
  Forall (fun cf => running_ts_sz !! cf
                    = Some (recorded_size record_ts_sz cf))
         (referenced_cfs batch) ->
  let replayed :=
    mkHandler running_ts_sz record_ts_sz (Some (mutations batch)) true false in
  Iterate batch (new_TimestampRecoveryHandler running_ts_sz record_ts_sz)
  = Done (OK, replayed) /\
  TransferNewBatch replayed = AssertFailure /\
  forall h : TimestampRecoveryHandler,
    (exists transferred h', TransferNewBatch h = Done (transferred, h'))
    <-> new_batch_diff_from_orig_batch_ h = true.
Proof.
  intros Hsame. cbv zeta. split; [|split].
  - rewrite Iterate_settled; [reflexivity .. |].
    eapply Forall_impl; [exact Hsame|]. intros cf Hcf. right. exact Hcf.
  - reflexivity.
  - intros h. unfold TransferNewBatch.
    destruct (new_batch_diff_from_orig_batch_ h); cbn [negb]; split.
    + reflexivity.
    + intros _. eauto.
    + intros (? & ? & ?). discriminate.
    + discriminate.
Qed.

Lemma consistent_batch_replay_witness :
  Iterate [Put 1 [x6b; x00; x00] [x76]; Noop false; Delete 2 [x78]]
          (new_TimestampRecoveryHandler {[ 1 := 2; 2 := 0 ]} {[ 1 := 2 ]})
  = Done (OK, mkHandler {[ 1 := 2; 2 := 0 ]} {[ 1 := 2 ]}
                (Some [Put 1 [x6b; x00; x00] [x76]; Delete 2 [x78]])
                true false) /\
  TransferNewBatch
    (mkHandler {[ 1 := 2; 2 := 0 ]} {[ 1 := 2 ]}
       (Some [Put 1 [x6b; x00; x00] [x76]; Delete 2 [x78]]) true false)
  = AssertFailure.
Proof.
  destruct (consistent_batch_replay
              [Put 1 [x6b; x00; x00] [x76]; Noop false; Delete 2 [x78]]
              {[ 1 := 2; 2 := 0 ]} {[ 1 := 2 ]}) as (Hrun & Hassert & _).
  - repeat constructor.
  - split; [exact Hrun | exact Hassert].
Defined.

(** A batch whose only column family is consistent: the replay leaves the
    changed flag false, [TransferNewBatch] fails its assertion, and the
    reconciliation-mode call does not return a batch. *)
Lemma transfer_of_unchanged_batch_fails :
  let batch := [Put 1 [x6b; x00; x00] [x76]] in
  let running_ts_sz : gmap N N := {[ 1 := 2 ]} in
  let record_ts_sz : gmap N N := {[ 1 := 2 ]} in
  Forall (fun cf => running_ts_sz !! cf = Some (recorded_size record_ts_sz cf))
         (referenced_cfs batch) /\
  (exists h,
     Iterate batch (new_TimestampRecoveryHandler running_ts_sz record_ts_sz)
     = Done (OK, h) /\
     new_batch_ h = Some batch /\
     new_batch_diff_from_orig_batch_ h = false /\
     TransferNewBatch h = AssertFailure) /\
  HandleWriteBatchTimestampSizeDifference batch running_ts_sz record_ts_sz
    kReconcileInconsistency None = AssertFailure.
Proof.
  cbv zeta. split; [repeat constructor | split].
  - eexists. repeat split.
  - reflexivity.
Qed.

Section replay_facts.

Implicit Types (h : TimestampRecoveryHandler) (e : Entry) (batch : WriteBatch).

Lemma same_control_refl h : same_control h h.
Proof. repeat split. Qed.

Lemma same_control_append_entry h1 h2 e :
  same_control h1 h2 -> same_control (append_entry h1 e) h2.
Proof. intros (? & ? & ? & ?). repeat split; assumption. Qed.

(** The outcome of reconciling one key of a valid handler. *)
Lemma Reconcile_outcome h cf (key : list byte) :
  handler_valid_ h = true ->
  recorded_size (record_ts_sz_ h) cf <= N.of_nat (length key) ->
  (exists new_key h',
      ReconcileTimestampDiscrepancy h cf key = Done (OK, new_key, h') /\
      (h' = h \/ h' = mark_changed h)) \/
  (unreconcilable (running_ts_sz_ h) (record_ts_sz_ h) cf /\
   ReconcileTimestampDiscrepancy h cf key
   = Done (InvalidArgument unreconcilable_error, key, h)).
Proof.
  intros Hvalid Hlen. unfold ReconcileTimestampDiscrepancy, reconcile.
  rewrite Hvalid. cbn [negb].
  destruct (running_ts_sz_ h !! cf) as [running_sz|] eqn:Hrun; [|left; eauto].
  fold (recorded_size (record_ts_sz_ h) cf).
  destruct (reconciliation_rule (recorded_size (record_ts_sz_ h) cf) running_sz)
    eqn:Hrule; cbn [mbind Run_bind].
  - left; eauto.
  - left; eauto.
  - destruct (N.ltb_spec (N.of_nat (length key))
                (recorded_size (record_ts_sz_ h) cf)); [lia|].
    cbn [mbind Run_bind]. left; eauto.
  - right. apply reconciliation_rule_Fail in Hrule. split; [|reflexivity].
    exists running_sz. tauto.
Qed.

Lemma Reconcile_unreconcilable h cf (key : list byte) :
  handler_valid_ h = true ->
  unreconcilable (running_ts_sz_ h) (record_ts_sz_ h) cf ->
  ReconcileTimestampDiscrepancy h cf key
  = Done (InvalidArgument unreconcilable_error, key, h).
Proof.
  intros Hvalid (running_sz & Hrun & Hfail).
  unfold ReconcileTimestampDiscrepancy, reconcile.
  rewrite Hvalid, Hrun. cbn [negb]. fold (recorded_size (record_ts_sz_ h) cf).
  now rewrite (proj2 (reconciliation_rule_Fail _ _) Hfail).
Qed.

Lemma on_key_outcome h cf (key : list byte) (mk : list byte -> Entry) :
  handler_valid_ h = true ->
  recorded_size (record_ts_sz_ h) cf <= N.of_nat (length key) ->
  keeps_going h (on_key h cf key mk) \/ stops_invalid (on_key h cf key mk).
Proof.
  intros Hvalid Hlen. unfold on_key.
  destruct (Reconcile_outcome h cf key Hvalid Hlen)
    as [(new_key & h' & -> & Hh') | [_ ->]]; cbn [mbind Run_bind ok].
  - left. eexists. split; [reflexivity|].
    destruct Hh' as [-> | ->]; repeat split; assumption.
  - right. repeat eexists.
Qed.

Lemma visit_outcome h e :
  handler_valid_ h = true ->
  entry_keys_carry_suffix (record_ts_sz_ h) e ->
  keeps_going h (visit h e) \/ stops_invalid (visit h e).
Proof.
  intros Hvalid Hkeys. unfold entry_keys_carry_suffix in Hkeys.
  destruct e; cbn [visit entry_cf entry_keys] in *;
    try (left; eexists; repeat split; assumption);
    try (apply on_key_outcome;
         [assumption | now apply Forall_cons in Hkeys as [? _]]).
  apply Forall_cons in Hkeys as [Hbegin [Hend _]%Forall_cons].
  unfold DeleteRangeCF.
  destruct (Reconcile_outcome h cf begin_key Hvalid Hbegin)
    as [(k1 & h1 & -> & Hh1) | [_ ->]]; cbn [mbind Run_bind ok];
    [|right; repeat eexists].
  assert (Hvalid1 : handler_valid_ h1 = true)
    by (destruct Hh1 as [-> | ->]; assumption).
  assert (Hrec1 : record_ts_sz_ h1 = record_ts_sz_ h)
    by (destruct Hh1 as [-> | ->]; reflexivity).
  assert (Hrun1 : running_ts_sz_ h1 = running_ts_sz_ h)
    by (destruct Hh1 as [-> | ->]; reflexivity).
  rewrite <- Hrec1 in Hend.
  destruct (Reconcile_outcome h1 cf end_key Hvalid1 Hend)
    as [(k2 & h2 & -> & Hh2) | [_ ->]]; cbn [mbind Run_bind ok];
    [|right; repeat eexists].
  left. eexists. split; [reflexivity|].
  destruct Hh2 as [-> | ->]; cbn; repeat split; congruence.
Qed.

Lemma visit_unreconcilable h e cf :
  handler_valid_ h = true ->
  entry_cf e = Some cf ->
  unreconcilable (running_ts_sz_ h) (record_ts_sz_ h) cf ->
  stops_invalid (visit h e).
Proof.
  intros Hvalid Hcf Hbad.
  destruct e; cbn [entry_cf] in Hcf; try discriminate;
    injection Hcf as ->; cbn [visit];
    unfold PutCF, DeleteCF, SingleDeleteCF, DeleteRangeCF, MergeCF,
      PutBlobIndexCF, on_key;
    rewrite Reconcile_unreconcilable by assumption;
    cbn [mbind Run_bind ok]; repeat eexists.
Qed.

Lemma Iterate_unreconcilable batch h cf :
  handler_valid_ h = true ->
  keys_carry_recorded_suffix (record_ts_sz_ h) batch ->
  cf ∈ referenced_cfs batch ->
  unreconcilable (running_ts_sz_ h) (record_ts_sz_ h) cf ->
  stops_invalid (Iterate batch h).
Proof.
  revert h. induction batch as [|e batch IH]; intros h Hvalid Hkeys Hin Hbad.
  - unfold referenced_cfs in Hin. cbn in Hin. now apply elem_of_nil in Hin.
  - apply Forall_cons in Hkeys as [Hkey Hkeys]. cbn [Iterate].
    destruct (visit_outcome h e Hvalid Hkey)
      as [(h' & Hvisit & Hvalid' & Hrun' & Hrec') | (msg & h' & Hvisit)];
      rewrite Hvisit; cbn [mbind Run_bind ok]; [|repeat eexists].
    unfold referenced_cfs in Hin. cbn [omap list_omap] in Hin.
    destruct (entry_cf e) as [cf'|] eqn:Ecf.
    + apply elem_of_cons in Hin as [<- | Hin].
      * destruct (visit_unreconcilable h e cf Hvalid Ecf Hbad)
          as (msg & h'' & Hstop). congruence.
      * apply IH; rewrite ?Hrun', ?Hrec'; assumption.
    + apply IH; rewrite ?Hrun', ?Hrec'; assumption.
Qed.

Lemma check_column_family_cases (running_ts_sz record_ts_sz : gmap N N) cf :
  check_column_family running_ts_sz record_ts_sz cf = OK \/
  IsInvalidArgument (check_column_family running_ts_sz record_ts_sz cf).
Proof.
  unfold check_column_family, IsInvalidArgument.
  destruct (running_ts_sz !! cf); [|now left].
  destruct (reconciliation_rule _ _); eauto.
Qed.

Lemma VerifyConsistency_unreconcilable (running_ts_sz record_ts_sz : gmap N N)
    (cfs : list N) cf :
  cf ∈ cfs ->
  unreconcilable running_ts_sz record_ts_sz cf ->
  IsInvalidArgument (VerifyConsistency running_ts_sz record_ts_sz cfs).
Proof.
  intros Hin (running_sz & Hrun & Hfail).
  induction cfs as [|cf' cfs IH]; [now apply elem_of_nil in Hin|].
  cbn [VerifyConsistency].
  destruct (check_column_family_cases running_ts_sz record_ts_sz cf')
    as [Hok | [msg Hmsg]].
  - rewrite Hok. cbn [ok]. apply elem_of_cons in Hin as [-> | Hin]; [|auto].
    unfold check_column_family in Hok. rewrite Hrun in Hok.
    fold (recorded_size record_ts_sz cf') in Hok.
    now rewrite (proj2 (reconciliation_rule_Fail _ _) Hfail) in Hok.
  - rewrite Hmsg. cbn [ok]. now exists msg.
Qed.

End replay_facts.

(** C7.  If a column family referenced by the batch is live and its
    recorded and running timestamp sizes are both nonzero and unequal,
    [HandleWriteBatchTimestampSizeDifference] fails with InvalidArgument
    in verification mode and, the user keys of the batch being as long as
    the sizes recorded for their column families, in reconciliation mode
    too; in both modes the output slot is left as it was, whatever the
    other entries of the batch are. *)
Theorem unreconcilable_sizes_fail_both_modes (batch : WriteBatch)
    (running_ts_sz record_ts_sz : gmap N N) (new_batch : option WriteBatch)
    (cf : uint32_t) (recorded_sz running_sz : size_t) :
  cf ∈ referenced_cfs batch ->
  record_ts_sz !! cf = Some recorded_sz ->
  running_ts_sz !! cf = Some running_sz ->
  recorded_sz <> 0 -> running_sz <> 0 -> recorded_sz <> running_sz ->
  (exists msg,
     HandleWriteBatchTimestampSizeDifference batch running_ts_sz record_ts_sz
       kVerifyConsistency new_batch
     = Done (InvalidArgument msg, new_batch)) /\
  (keys_carry_recorded_suffix record_ts_sz batch ->
   exists msg,
     HandleWriteBatchTimestampSizeDifference batch running_ts_sz record_ts_sz
       kReconcileInconsistency new_batch
     = Done (InvalidArgument msg, new_batch)).
Proof.
  intros Hin Hrec Hrun Hrec0 Hrun0 Hne.
  assert (Hbad : unreconcilable running_ts_sz record_ts_sz cf).
  { exists running_sz. unfold recorded_size. rewrite Hrec.
    change (default 0 (Some recorded_sz)) with recorded_sz.
    split; [assumption | lia]. }
  split; [|intros Hkeys]; cbn [HandleWriteBatchTimestampSizeDifference].
  - destruct (VerifyConsistency_unreconcilable _ _ _ _ Hin Hbad) as [msg ->].
    now exists msg.
  - destruct (Iterate_unreconcilable batch
                (new_TimestampRecoveryHandler running_ts_sz record_ts_sz) cf
                eq_refl Hkeys Hin Hbad) as (msg & h' & ->).
    cbn [mbind Run_bind ok]. now exists msg.
Qed.

Lemma unreconcilable_sizes_fail_both_modes_witness :
  let batch := [Delete 2 [x78; x79; x7a];
                Put 1 [x61; x62; x63; x00; x00; x00] [x76; x31]] in
  let running_ts_sz : gmap N N := {[ 1 := 5; 2 := 2 ]} in
  let record_ts_sz : gmap N N := {[ 1 := 3 ]} in
  (exists msg,
     HandleWriteBatchTimestampSizeDifference batch running_ts_sz record_ts_sz
       kVerifyConsistency None
     = Done (InvalidArgument msg, None)) /\
  (exists msg,
     HandleWriteBatchTimestampSizeDifference batch running_ts_sz record_ts_sz
       kReconcileInconsistency None
     = Done (InvalidArgument msg, None)).
Proof.
  cbv zeta.
  destruct (unreconcilable_sizes_fail_both_modes
              [Delete 2 [x78; x79; x7a];
               Put 1 [x61; x62; x63; x00; x00; x00] [x76; x31]]
              {[ 1 := 5; 2 := 2 ]} {[ 1 := 3 ]} None 1 3 5)
    as [Hverify Hreconcile].
  - apply list_elem_of_further, list_elem_of_here.
  - reflexivity.
  - reflexivity.
  - lia.
  - lia.
  - lia.
  - split; [exact Hverify|]. apply Hreconcile.
    unfold keys_carry_recorded_suffix.
    repeat first [ apply Forall_nil_2
                 | apply Forall_cons_2; cbn [entry_cf entry_keys]
                 | (vm_compute; discriminate) ].
Defined.

Section dropped_facts.

Implicit Types (h : TimestampRecoveryHandler) (e : Entry) (batch : WriteBatch).

Lemma dropped_true (running_ts_sz : gmap N N) e :
  dropped running_ts_sz e = true
  <-> exists cf, entry_cf e = Some cf /\ running_ts_sz !! cf = None.
Proof.
  unfold dropped. destruct (entry_cf e) as [cf|].
  - rewrite bool_decide_eq_true. split; [eauto|]. now intros (? & [= <-] & ?).
  - split; [discriminate | now intros (? & ? & _)].
Qed.

Lemma dropped_false_live (running_ts_sz : gmap N N) e cf :
  entry_cf e = Some cf -> is_Some (running_ts_sz !! cf) ->
  dropped running_ts_sz e = false.
Proof.
  intros Hcf [n Hn]. unfold dropped. rewrite Hcf.
  apply bool_decide_eq_false. congruence.
Qed.

Lemma same_outcome_status r1 r2 :
  same_outcome r1 r2 -> status_of r1 = status_of r2.
Proof.
  destruct r1 as [[s1 h1]|], r2 as [[s2 h2]|]; cbn; try tauto.
  now intros [-> _].
Qed.

Lemma Reconcile_same_control h1 h2 cf (key : list byte) :
  same_control h1 h2 ->
  match ReconcileTimestampDiscrepancy h1 cf key,
        ReconcileTimestampDiscrepancy h2 cf key with
  | Done (s1, k1, h1'), Done (s2, k2, h2') =>
      s1 = s2 /\ k1 = k2 /\ same_control h1' h2'
  | AssertFailure, AssertFailure => True
  | _, _ => False
  end.
Proof.
  destruct h1 as [run1 rec1 nb1 v1 d1], h2 as [run2 rec2 nb2 v2 d2].
  intros (Hrun & Hrec & Hv & Hd). cbn in Hrun, Hrec, Hv, Hd. subst.
  unfold ReconcileTimestampDiscrepancy.
  cbn [handler_valid_ running_ts_sz_ record_ts_sz_].
  destruct v2; cbn [negb]; [|exact I].
  destruct (run2 !! cf) as [running_sz|]; [|repeat split].
  destruct (reconcile _ _ _) as [[s [k|]]|]; cbn [mbind Run_bind];
    repeat split.
Qed.

Lemma on_key_same_control h1 h2 cf (key : list byte) (mk : list byte -> Entry) :
  same_control h1 h2 ->
  same_outcome (on_key h1 cf key mk) (on_key h2 cf key mk).
Proof.
  intros Hsame. unfold on_key.
  pose proof (Reconcile_same_control h1 h2 cf key Hsame) as H.
  destruct (ReconcileTimestampDiscrepancy h1 cf key) as [[[s1 k1] h1']|],
    (ReconcileTimestampDiscrepancy h2 cf key) as [[[s2 k2] h2']|];
    try contradiction; [|exact I].
  destruct H as (-> & -> & H). cbn [mbind Run_bind].
  destruct (ok s2); cbn [same_outcome]; (split; [reflexivity|]).
  - destruct H as (? & ? & ? & ?). repeat split; assumption.
  - assumption.
Qed.

Lemma visit_same_control h1 h2 e :
  same_control h1 h2 -> same_outcome (visit h1 e) (visit h2 e).
Proof.
  intros Hsame.
  destruct e; cbn [visit];
    try (apply on_key_same_control; assumption);
    try (cbn; split; [reflexivity | assumption]).
  unfold DeleteRangeCF.
  pose proof (Reconcile_same_control h1 h2 cf begin_key Hsame) as H.
  destruct (ReconcileTimestampDiscrepancy h1 cf begin_key)
    as [[[s1 k1] h1']|],
    (ReconcileTimestampDiscrepancy h2 cf begin_key) as [[[s2 k2] h2']|];
    try contradiction; [|exact I].
  destruct H as (-> & -> & H). cbn [mbind Run_bind].
  destruct (ok s2); [|cbn; split; [reflexivity | assumption]].
  pose proof (Reconcile_same_control h1' h2' cf end_key H) as H'.
  destruct (ReconcileTimestampDiscrepancy h1' cf end_key)
    as [[[s1 k1] h1'']|],
    (ReconcileTimestampDiscrepancy h2' cf end_key) as [[[s3 k3] h2'']|];
    try contradiction; [|exact I].
  destruct H' as (-> & -> & H'). cbn [mbind Run_bind].
  destruct (ok s3); cbn [same_outcome]; (split; [reflexivity|]).
  - destruct H' as (? & ? & ? & ?). repeat split; assumption.
  - assumption.
Qed.

(** No callback changes the maps or the validity of the handler. *)
Lemma Reconcile_frame h cf (key new_key : list byte) s h' :
  ReconcileTimestampDiscrepancy h cf key = Done (s, new_key, h') ->
  (h' = h \/ h' = mark_changed h) /\
  (running_ts_sz_ h !! cf = None -> new_key = key /\ h' = h).
Proof.
  unfold ReconcileTimestampDiscrepancy.
  destruct (handler_valid_ h); cbn [negb]; [|discriminate].
  destruct (running_ts_sz_ h !! cf) as [running_sz|].
  - destruct (reconcile _ _ _) as [[s' [k|]]|]; cbn [mbind Run_bind];
      intros [= <- <- <-] || discriminate; split; auto; discriminate.
  - intros [= <- <- <-]. auto.
Qed.

Lemma visit_frame h e s h' :
  visit h e = Done (s, h') ->
  running_ts_sz_ h' = running_ts_sz_ h /\
  handler_valid_ h' = handler_valid_ h.
Proof.
  assert (Hrec : forall h cf key s k h',
             ReconcileTimestampDiscrepancy h cf key = Done (s, k, h') ->
             running_ts_sz_ h' = running_ts_sz_ h /\
             handler_valid_ h' = handler_valid_ h).
  { intros h0 cf key s0 k h0' H. apply Reconcile_frame in H as [[-> | ->] _];
      split; reflexivity. }
  assert (Hkey : forall cf key mk,
             on_key h cf key mk = Done (s, h') ->
             running_ts_sz_ h' = running_ts_sz_ h /\
             handler_valid_ h' = handler_valid_ h).
  { intros cf key mk. unfold on_key.
    destruct (ReconcileTimestampDiscrepancy h cf key) as [[[s1 k1] h1]|] eqn:E;
      cbn [mbind Run_bind]; [|discriminate].
    apply Hrec in E. destruct (ok s1); intros [= <- <-]; exact E. }
  destruct e; cbn [visit]; try (now apply Hkey);
    try (intros [= <- <-]; split; reflexivity).
  unfold DeleteRangeCF.
  destruct (ReconcileTimestampDiscrepancy h cf begin_key)
    as [[[s1 k1] h1]|] eqn:E1; cbn [mbind Run_bind]; [|discriminate].
  apply Hrec in E1 as [Hr1 Hv1].
  destruct (ok s1); [|intros [= <- <-]; auto].
  destruct (ReconcileTimestampDiscrepancy h1 cf end_key)
    as [[[s2 k2] h2]|] eqn:E2; cbn [mbind Run_bind]; [|discriminate].
  apply Hrec in E2 as [Hr2 Hv2].
  destruct (ok s2); intros [= <- <-]; cbn; split; congruence.
Qed.

Lemma Iterate_without_dropped batch h1 h2 :
  handler_valid_ h1 = true ->
  same_control h1 h2 ->
  same_outcome (Iterate batch h1)
               (Iterate (live_entries (running_ts_sz_ h1) batch) h2).
Proof.
  revert h1 h2. induction batch as [|e batch IH]; intros h1 h2 Hvalid Hsame.
  - cbn. split; [reflexivity | assumption].
  - unfold live_entries. rewrite filter_cons.
    fold (live_entries (running_ts_sz_ h1) batch).
    destruct (decide (dropped (running_ts_sz_ h1) e = false)) as [Hlive|Hdrop].
    + cbn [Iterate].
      pose proof (visit_same_control h1 h2 e Hsame) as Hvisit.
      destruct (visit h1 e) as [[s1 h1']|] eqn:E1,
        (visit h2 e) as [[s2 h2']|]; try contradiction; [|exact I].
      destruct Hvisit as [-> Hsame']. cbn [mbind Run_bind].
      apply visit_frame in E1 as [Hrun Hvalid'].
      destruct (ok s2); [|split; [reflexivity | assumption]].
      rewrite <- Hrun. apply IH; congruence.
    + apply not_false_is_true in Hdrop. cbn [Iterate].
      rewrite visit_settled; [| assumption |].
      * destruct (proj1 (dropped_true _ _) Hdrop) as (cf & Hcf & _).
        unfold is_mutation. rewrite Hcf. cbn [mbind Run_bind ok].
        change (running_ts_sz_ h1)
          with (running_ts_sz_ (append_entry h1 e)).
        apply IH; [assumption | now apply same_control_append_entry].
      * intros cf Hcf. left.
        destruct (proj1 (dropped_true _ _) Hdrop) as (cf' & Hcf' & Hnone).
        congruence.
Qed.

Lemma VerifyConsistency_without_dropped (running_ts_sz record_ts_sz : gmap N N)
    batch :
  VerifyConsistency running_ts_sz record_ts_sz (referenced_cfs batch)
  = VerifyConsistency running_ts_sz record_ts_sz
      (referenced_cfs (live_entries running_ts_sz batch)).
Proof.
  induction batch as [|e batch IH]; [reflexivity|].
  unfold live_entries. rewrite filter_cons.
  fold (live_entries running_ts_sz batch).
  destruct (decide (dropped running_ts_sz e = false)) as [Hlive|Hdrop].
  - unfold referenced_cfs in *. cbn [omap list_omap].
    destruct (entry_cf e) as [cf|]; [|exact IH].
    cbn [VerifyConsistency]. now rewrite IH.
  - apply not_false_is_true in Hdrop.
    destruct (proj1 (dropped_true _ _) Hdrop) as (cf & Hcf & Hnone).
    unfold referenced_cfs in *. cbn [omap list_omap]. rewrite Hcf.
    cbn [VerifyConsistency]. unfold check_column_family at 1.
    rewrite Hnone. exact IH.
Qed.

(** What a callback appends agrees with the entry on dropped column
    families. *)
Lemma visit_appends h e h' :
  visit h e = Done (OK, h') ->
  exists es,
    new_batch_ h' = (fun b => b ++ es) <$> new_batch_ h /\
    filter (fun x => dropped (running_ts_sz_ h) x = true) es
    = filter (fun x => dropped (running_ts_sz_ h) x = true) [e].
Proof.
  assert (Hmk : forall cf (k1 k2 : Entry),
             entry_cf k1 = Some cf -> entry_cf k2 = Some cf ->
             (running_ts_sz_ h !! cf = None -> k1 = k2) ->
             filter (fun x => dropped (running_ts_sz_ h) x = true) [k1]
             = filter (fun x => dropped (running_ts_sz_ h) x = true) [k2]).
  { intros cf k1 k2 H1 H2 Heq.
    destruct (running_ts_sz_ h !! cf) as [n|] eqn:Hrun.
    - rewrite !filter_cons, !filter_nil.
      rewrite !(dropped_false_live _ _ cf) by (rewrite ?Hrun; eauto).
      reflexivity.
    - now rewrite Heq. }
  assert (Hkey : forall cf key (mk : list byte -> Entry),
             (forall k, entry_cf (mk k) = Some cf) ->
             on_key h cf key mk = Done (OK, h') ->
             exists es,
               new_batch_ h' = (fun b => b ++ es) <$> new_batch_ h /\
               filter (fun x => dropped (running_ts_sz_ h) x = true) es
               = filter (fun x => dropped (running_ts_sz_ h) x = true)
                   [mk key]).
  { intros cf key mk Hcf. unfold on_key.
    destruct (ReconcileTimestampDiscrepancy h cf key) as [[[s1 k1] h1]|] eqn:E;
      cbn [mbind Run_bind]; [|discriminate].
    apply Reconcile_frame in E as [Hh1 Hnone].
    destruct s1; cbn [ok]; try discriminate. intros [= <-].
    exists [mk k1]. split.
    - destruct Hh1 as [-> | ->]; reflexivity.
    - apply (Hmk cf); auto. intros Hd. now destruct (Hnone Hd) as [-> _]. }
  destruct e; cbn [visit];
    unfold PutCF, DeleteCF, SingleDeleteCF, MergeCF, PutBlobIndexCF;
    try match goal with
        | |- on_key _ ?cf ?key ?mk = _ -> _ =>
            apply (Hkey cf key mk); reflexivity
        end;
    try (intros [= <-]; exists []; split;
         [destruct (new_batch_ h); cbn; now rewrite ?app_nil_r
         | reflexivity]).
  unfold DeleteRangeCF.
  destruct (ReconcileTimestampDiscrepancy h cf begin_key)
    as [[[s1 k1] h1]|] eqn:E1; cbn [mbind Run_bind]; [|discriminate].
  apply Reconcile_frame in E1 as [Hh1 Hnone1].
  destruct s1; cbn [ok]; try discriminate.
  destruct (ReconcileTimestampDiscrepancy h1 cf end_key)
    as [[[s2 k2] h2]|] eqn:E2; cbn [mbind Run_bind]; [|discriminate].
  apply Reconcile_frame in E2 as [Hh2 Hnone2].
  destruct s2; cbn [ok]; try discriminate. intros [= <-].
  exists [DeleteRange cf k1 k2]. split.
  - destruct Hh1 as [-> | ->], Hh2 as [-> | ->]; reflexivity.
  - apply (Hmk cf); auto. intros Hd.
    destruct (Hnone1 Hd) as [-> ->]. now destruct (Hnone2 Hd) as [-> _].
Qed.

Lemma Iterate_appends batch h h' :
  Iterate batch h = Done (OK, h') ->
  exists es,
    new_batch_ h' = (fun b => b ++ es) <$> new_batch_ h /\
    filter (fun x => dropped (running_ts_sz_ h) x = true) es
    = filter (fun x => dropped (running_ts_sz_ h) x = true) batch.
Proof.
  revert h. induction batch as [|e batch IH]; intros h; cbn [Iterate].
  - intros [= <-]. exists []. split; [|reflexivity].
    destruct (new_batch_ h); cbn; now rewrite ?app_nil_r.
  - destruct (visit h e) as [[s1 h1]|] eqn:E; cbn [mbind Run_bind];
      [|discriminate].
    destruct s1; cbn [ok]; try discriminate. intros Hrest.
    destruct (visit_frame _ _ _ _ E) as [Hrun _].
    apply visit_appends in E as (es1 & Hb1 & Hf1).
    apply IH in Hrest as (es2 & Hb2 & Hf2). rewrite Hrun in Hf2.
    exists (es1 ++ es2). split.
    + rewrite Hb2, Hb1. destruct (new_batch_ h); cbn; [|reflexivity].
      now rewrite app_assoc.
    + rewrite filter_app, Hf1, Hf2. now rewrite <- filter_app.
Qed.

End dropped_facts.

(** C8.  A column family without an entry in the running map has been
    dropped.  An entry that refers to it is accepted by the handler
    without a reconciliation decision and appended as it is; in
    verification mode the call returns what it returns for the batch
    without such entries; in reconciliation mode it ends in the same
    status as for the batch without them, and the entries of dropped
    column families in a batch it hands out are those of the source
    batch, unchanged and in order. *)
Theorem dropped_column_family_ignored (batch : WriteBatch)
    (running_ts_sz record_ts_sz : gmap N N) (new_batch : option WriteBatch) :
  (forall (h : TimestampRecoveryHandler) (e : Entry),
      handler_valid_ h = true ->
      dropped (running_ts_sz_ h) e = true ->
      visit h e = Done (OK, append_entry h e)) /\
  HandleWriteBatchTimestampSizeDifference batch running_ts_sz record_ts_sz
    kVerifyConsistency new_batch
  = HandleWriteBatchTimestampSizeDifference
      (live_entries running_ts_sz batch) running_ts_sz record_ts_sz
      kVerifyConsistency new_batch /\
  status_of (HandleWriteBatchTimestampSizeDifference batch running_ts_sz
               record_ts_sz kReconcileInconsistency new_batch)
  = status_of (HandleWriteBatchTimestampSizeDifference
                 (live_entries running_ts_sz batch) running_ts_sz
                 record_ts_sz kReconcileInconsistency new_batch) /\
  (forall out,
      HandleWriteBatchTimestampSizeDifference batch running_ts_sz
        record_ts_sz kReconcileInconsistency new_batch = Done (OK, Some out) ->
      filter (fun e => dropped running_ts_sz e = true) out
      = filter (fun e => dropped running_ts_sz e = true) batch).
Proof.
  split; [|split; [|split]].
  - intros h e Hvalid Hdrop.
    destruct (proj1 (dropped_true _ _) Hdrop) as (cf & Hcf & Hnone).
    rewrite visit_settled; [| assumption |].
    + unfold is_mutation. now rewrite Hcf.
    + intros cf' Hcf'. left. congruence.
  - cbn [HandleWriteBatchTimestampSizeDifference].
    now rewrite VerifyConsistency_without_dropped.
  - cbn [HandleWriteBatchTimestampSizeDifference].
    pose proof (Iterate_without_dropped batch
                  (new_TimestampRecoveryHandler running_ts_sz record_ts_sz)
                  (new_TimestampRecoveryHandler running_ts_sz record_ts_sz)
                  eq_refl (same_control_refl _)) as Hsim.
    cbn [new_TimestampRecoveryHandler running_ts_sz_] in Hsim.
    destruct (Iterate batch _) as [[s1 h1]|],
      (Iterate (live_entries running_ts_sz batch) _) as [[s2 h2]|];
      try contradiction; [|reflexivity].
    destruct Hsim as (-> & _ & _ & _ & Hd). cbn [mbind Run_bind].
    destruct (ok s2); [|reflexivity].
    unfold TransferNewBatch. rewrite Hd.
    now destruct (new_batch_diff_from_orig_batch_ h2).
  - intros out. cbn [HandleWriteBatchTimestampSizeDifference].
    destruct (Iterate batch _) as [[s1 h1]|] eqn:E; cbn [mbind Run_bind];
      [|discriminate].
    destruct s1; cbn [ok]; try discriminate.
    unfold TransferNewBatch.
    destruct (new_batch_diff_from_orig_batch_ h1); cbn [negb mbind Run_bind];
      [|discriminate].
    intros [= Hout]. apply Iterate_appends in E as (es & Hb & Hf).
    cbn in Hb, Hf. rewrite Hb in Hout. injection Hout as <-. exact Hf.
Qed.

Lemma dropped_column_family_ignored_witness :
  let batch := [Put 9 [x6b] [x76]; Delete 1 [x61; x62]] in
  let running_ts_sz : gmap N N := {[ 1 := 2 ]} in
  visit (new_TimestampRecoveryHandler running_ts_sz ∅) (Put 9 [x6b] [x76])
  = Done (OK, append_entry (new_TimestampRecoveryHandler running_ts_sz ∅)
                (Put 9 [x6b] [x76])) /\
  filter (fun e => dropped running_ts_sz e = true)
         [Put 9 [x6b] [x76]; Delete 1 [x61; x62; x00; x00]]
  = filter (fun e => dropped running_ts_sz e = true) batch.
Proof.
  cbv zeta.
  destruct (dropped_column_family_ignored
              [Put 9 [x6b] [x76]; Delete 1 [x61; x62]] {[ 1 := 2 ]} ∅ None)
    as (Hvisit & _ & _ & Hcopied).
  split.
  - apply Hvisit; reflexivity.
  - apply Hcopied. reflexivity.
Defined.

(** C2 (amended).  On a handler whose changed flag is true, a call to
    [TransferNewBatch] returns the accumulated batch and leaves the
    handler invalid and without a batch; from then on every mutation
    callback (put, delete, single delete, delete range, merge, blob index
    put), and so every traversal that reaches a mutation, ends in a failed
    assertion, not in a status. *)
Theorem TransferNewBatch_invalidates (h : TimestampRecoveryHandler) :
  new_batch_diff_from_orig_batch_ h = true ->
  exists h',
    TransferNewBatch h = Done (new_batch_ h, h') /\
    handler_valid_ h' = false /\
    new_batch_ h' = None /\
    (forall e, is_mutation e = true -> visit h' e = AssertFailure) /\
    (forall e batch, is_mutation e = true ->
                     Iterate (e :: batch) h' = AssertFailure).
Proof.
  intros Hchanged. unfold TransferNewBatch. rewrite Hchanged. cbn [negb].
  eexists. split; [reflexivity|]. split; [reflexivity|].
  split; [reflexivity|].
  assert (Hvisit : forall e, is_mutation e = true ->
            visit (mkHandler (running_ts_sz_ h) (record_ts_sz_ h) None false
                             true) e = AssertFailure).
  { intros e He. destruct e; cbn in He; try discriminate; reflexivity. }
  split; [exact Hvisit|].
  intros e batch He. cbn [Iterate]. now rewrite Hvisit.
Qed.

Lemma TransferNewBatch_invalidates_witness :
  exists h',
    TransferNewBatch
      (mkHandler {[ 1 := 2 ]} ∅ (Some [Put 1 [x6b; x00; x00] [x76]]) true true)
    = Done (Some [Put 1 [x6b; x00; x00] [x76]], h') /\
    handler_valid_ h' = false /\
    Iterate [Delete 1 [x6b]] h' = AssertFailure.
Proof.
  destruct (TransferNewBatch_invalidates
              (mkHandler {[ 1 := 2 ]} ∅ (Some [Put 1 [x6b; x00; x00] [x76]])
                         true true))
    as (h' & Htransfer & Hinvalid & _ & _ & Hiterate).
  - reflexivity.
  - exists h'. split; [exact Htransfer|]. split; [exact Hinvalid|].
    apply Hiterate. reflexivity.
Defined.

(** After a replay that padded a key, the first [TransferNewBatch] hands
    the batch over; a second call passes the same assertion and returns
    the now empty pointer, and a traversal of markers on the invalid
    handler returns OK: neither fails. *)
Lemma second_transfer_does_not_fail :
  let running_ts_sz : gmap N N := {[ 1 := 2 ]} in
  exists h0 h1,
    Iterate [Put 1 [x6b] [x76]] (new_TimestampRecoveryHandler running_ts_sz ∅)
    = Done (OK, h0) /\
    TransferNewBatch h0 = Done (Some [Put 1 [x6b; x00; x00] [x76]], h1) /\
    handler_valid_ h1 = false /\
    TransferNewBatch h1 = Done (None, h1) /\
    Iterate [Noop false; Commit []] h1 = Done (OK, h1).
Proof.
  cbv zeta. do 2 eexists. repeat split.
Qed.

(** * Further properties of the record codec *)

Section more_codec_facts.

Implicit Types (pairs : list (uint32_t * size_t)) (src dst : list byte).

Lemma EncodeTo_loop_app pairs1 pairs2 dst :
  EncodeTo_loop (pairs1 ++ pairs2) dst
  = EncodeTo_loop pairs1 dst ≫= EncodeTo_loop pairs2.
Proof.
  revert dst. induction pairs1 as [|[cf_id ts_sz] pairs1 IH]; intros dst.
  - reflexivity.
  - cbn [app EncodeTo_loop]. destruct (ts_sz =? 0); [reflexivity | apply IH].
Qed.

Lemma EncodeTo_loop_AssertFailure pairs dst :
  EncodeTo_loop pairs dst = AssertFailure <-> Exists (fun p => snd p = 0) pairs.
Proof.
  revert dst. induction pairs as [|[cf_id ts_sz] pairs IH]; intros dst.
  - cbn. split; [discriminate | intros H; inversion H].
  - cbn [EncodeTo_loop]. rewrite Exists_cons. cbn [snd].
    destruct (N.eqb_spec ts_sz 0) as [->|Hnz].
    + split; [now left | reflexivity].
    + rewrite IH. split; [now right | intros [? | ?]; [contradiction | assumption]].
Qed.

Lemma EncodeTo_loop_cases pairs dst :
  EncodeTo_loop pairs dst = Done (dst ++ flat_map encode_pair pairs) \/
  EncodeTo_loop pairs dst = AssertFailure.
Proof.
  destruct (EncodeTo_loop pairs dst) as [out|] eqn:E; [left | now right].
  rewrite <- E. apply EncodeTo_loop_Done. eapply EncodeTo_loop_Done_inv, E.
Qed.

End more_codec_facts.

(** X1.  [EncodeTo] ends in a failed assertion exactly when the record
    holds a pair whose timestamp size is 0, whatever the destination
    holds; it never fails otherwise. *)
Theorem EncodeTo_AssertFailure_iff (r : UserDefinedTimestampSizeRecord)
    (dst : list byte) :
  EncodeTo r dst = AssertFailure
  <-> Exists (fun p => snd p = 0) (GetUserDefinedTimestampSize r).
Proof. apply EncodeTo_loop_AssertFailure. Qed.

(** X2.  Encoding the pairs [pairs1 ++ pairs2] is encoding [pairs1] and
    then, into the same string, [pairs2]; a failed assertion in the first
    part ends the run. *)
Theorem EncodeTo_app (pairs1 pairs2 : list (uint32_t * size_t))
    (dst : list byte) :
  EncodeTo (mkRecord (pairs1 ++ pairs2)) dst
  = EncodeTo (mkRecord pairs1) dst ≫= EncodeTo (mkRecord pairs2).
Proof. apply EncodeTo_loop_app. Qed.

(** X3.  [EncodeTo] only appends: what it leaves in a destination that
    held [dst] is [dst] followed by what it writes into an empty string,
    and it succeeds on the one exactly when it succeeds on the other. *)
Theorem EncodeTo_appends_to_dst (r : UserDefinedTimestampSizeRecord)
    (dst out : list byte) :
  EncodeTo r [] = Done out <-> EncodeTo r dst = Done (dst ++ out).
Proof.
  unfold EncodeTo.
  destruct (EncodeTo_loop_cases (cf_to_ts_sz_ r) []) as [E|E],
    (EncodeTo_loop_cases (cf_to_ts_sz_ r) dst) as [E'|E']; rewrite E, E'.
  - cbn [app]. split; intros [= H]; [now subst | now apply app_inv_head in H; subst].
  - apply EncodeTo_loop_AssertFailure in E'.
    apply (EncodeTo_loop_AssertFailure _ []) in E'. congruence.
  - apply EncodeTo_loop_AssertFailure in E.
    apply (EncodeTo_loop_AssertFailure _ dst) in E. congruence.
  - split; discriminate.
Qed.

Section decode_facts.

Implicit Types (pairs : list (uint32_t * size_t)) (src dst : list byte).

Lemma groups_of_app src1 src2 :
  N.of_nat (length src1) mod 6 = 0 ->
  groups_of (src1 ++ src2) = groups_of src1 ++ groups_of src2.
Proof.
  induction src1 as [src Hshort | b0 b1 b2 b3 b4 b5 rest IH]
    using six_bytes_ind; intros Hlen.
  - destruct src as [|b0 [|b1 [|b2 [|b3 [|b4 [|b5 rest]]]]]];
      cbn [length] in Hshort, Hlen; try lia; try reflexivity;
      exfalso; revert Hlen; clear; vm_compute; discriminate.
  - cbn [app groups_of]. f_equal. apply IH.
    cbn [length] in Hlen. lia_div.
Qed.

(** The bytes read by [n] rounds and the groups they spell. *)
Lemma groups_of_firstn (n : nat) src :
  (6 * n <= length src)%nat ->
  groups_of (firstn (6 * n) src) = firstn n (groups_of src) /\
  length (firstn n (groups_of src)) = n.
Proof.
  revert src. induction n as [|n IH]; intros src Hlen.
  - now rewrite Nat.mul_0_r.
  - destruct src as [|b0 [|b1 [|b2 [|b3 [|b4 [|b5 rest]]]]]];
      cbn [length] in Hlen; try lia.
    replace (6 * S n)%nat with (6 + 6 * n)%nat by lia.
    cbn [Nat.add firstn groups_of length].
    destruct (IH rest ltac:(lia)) as [-> ->]. split; reflexivity.
Qed.

Lemma rounds_fit src :
  (6 * Z.to_nat (static_cast_int (N.of_nat (length src) / 6))
   <= length src)%nat.
Proof.
  pose proof (static_cast_int_le (N.of_nat (length src) / 6)). lia_div.
Qed.

End decode_facts.

(** X4.  Whatever [EncodeTo] writes into an empty string is a whole number
    of six-byte groups, one per pair, so [DecodeFrom] never rejects it:
    the status is OK for every record decoded into. *)
Theorem DecodeFrom_accepts_EncodeTo (r r' : UserDefinedTimestampSizeRecord)
    (bytes : list byte) :
  EncodeTo r [] = Done bytes ->
  length bytes = (6 * length (GetUserDefinedTimestampSize r))%nat /\
  (DecodeFrom bytes r').1.1 = OK.
Proof.
  intros Henc. unfold EncodeTo in Henc.
  destruct (EncodeTo_loop_cases (cf_to_ts_sz_ r) []) as [E|E];
    rewrite E in Henc; [|discriminate].
  injection Henc as <-. cbn [app].
  rewrite length_flat_map_encode_pair. split; [reflexivity|].
  rewrite DecodeFrom_unfold. cbv zeta. rewrite length_flat_map_encode_pair.
  replace (N.of_nat (6 * length (cf_to_ts_sz_ r)) mod 6) with 0 by lia_div.
  reflexivity.
Qed.

Lemma DecodeFrom_accepts_EncodeTo_witness :
  length [x01; x00; x00; x00; x00; x00] = (6 * 1)%nat /\
  (DecodeFrom [x01; x00; x00; x00; x00; x00] (mkRecord [(9, 9)])).1.1 = OK.
Proof.
  apply (DecodeFrom_accepts_EncodeTo (mkRecord [(1, 65536)])).
  reflexivity.
Defined.

(** X5.  Two records whose pairs fit the wire format and that [EncodeTo]
    writes as the same bytes hold the same pairs in the same order. *)
Theorem EncodeTo_injective (pairs1 pairs2 : list (uint32_t * size_t)) :
  Forall in_wire_range pairs1 ->
  Forall in_wire_range pairs2 ->
  EncodeTo (mkRecord pairs1) [] = EncodeTo (mkRecord pairs2) [] ->
  pairs1 = pairs2.
Proof.
  intros H1 H2. unfold EncodeTo. cbn [cf_to_ts_sz_].
  rewrite !EncodeTo_loop_Done by (apply in_wire_range_nonzero; assumption).
  cbn [app]. intros [= E]. apply (f_equal groups_of) in E.
  rewrite !groups_of_encode in E.
  now rewrite !map_reduce_in_range in E by assumption.
Qed.

Lemma EncodeTo_injective_witness : [(1, 8); (1, 9)] = [(1, 8); (1, 9)].
Proof.
  apply (EncodeTo_injective [(1, 8); (1, 9)] [(1, 8); (1, 9)]);
    [ repeat constructor; unfold is_uint32; cbn [fst snd]; lia ..
    | reflexivity ].
Defined.

(** X6.  On every input the status of [DecodeFrom] is OK or the Corruption
    of the length check.  The Corruption of a failed [GetFixed32] or
    [GetFixed16] never comes out: once the length is a multiple of 6 the
    loop cannot run out of bytes. *)
Theorem DecodeFrom_status (src : list byte)
    (r : UserDefinedTimestampSizeRecord) :
  ((DecodeFrom src r).1.1 = OK \/
   (DecodeFrom src r).1.1
   = Corruption (length_error (N.of_nat (length src)))) /\
  (DecodeFrom src r).1.1 <> Corruption decode_entry_error.
Proof.
  rewrite DecodeFrom_unfold. cbv zeta.
  destruct (N.of_nat (length src) mod 6 =? 0); cbn [fst]; split;
    auto; discriminate.
Qed.

(** X7.  [DecodeFrom] reads from the front and never beyond the input: the
    input is the bytes consumed followed by what is left in the slice, the
    bytes consumed are six per pair appended, and the pairs appended,
    after those already held, are the groups these bytes spell. *)
Theorem DecodeFrom_consumes (src rest : list byte) (s : Status)
    (r r' : UserDefinedTimestampSizeRecord) :
  DecodeFrom src r = (s, rest, r') ->
  exists consumed decoded,
    src = consumed ++ rest /\
    length consumed = (6 * length decoded)%nat /\
    decoded = groups_of consumed /\
    GetUserDefinedTimestampSize r'
    = GetUserDefinedTimestampSize r ++ decoded.
Proof.
  rewrite DecodeFrom_unfold. cbv zeta.
  destruct (N.of_nat (length src) mod 6 =? 0).
  - intros [= <- <- <-].
    set (n := Z.to_nat (static_cast_int (N.of_nat (length src) / 6))).
    pose proof (rounds_fit src) as Hfit. fold n in Hfit.
    destruct (groups_of_firstn n src Hfit) as [Hgroups Hcount].
    exists (firstn (6 * n) src), (firstn n (groups_of src)).
    split; [now rewrite firstn_skipn|].
    split; [rewrite Hcount, length_firstn; lia|].
    split; [now rewrite Hgroups | reflexivity].
  - intros [= <- <- <-]. exists [], []. repeat split.
    unfold GetUserDefinedTimestampSize. now rewrite app_nil_r.
Qed.

Lemma DecodeFrom_consumes_witness :
  exists consumed decoded,
    [x01; x00; x00; x00; x08; x00] = consumed ++ [] /\
    length consumed = (6 * length decoded)%nat /\
    decoded = groups_of consumed /\
    GetUserDefinedTimestampSize (mkRecord [(5, 2); (1, 8)])
    = GetUserDefinedTimestampSize (mkRecord [(5, 2)]) ++ decoded.
Proof.
  apply (DecodeFrom_consumes [x01; x00; x00; x00; x08; x00] [] OK).
  reflexivity.
Defined.

(** X8.  Decoding a concatenation is decoding its parts one after the
    other into the same record, when both parts are whole numbers of
    six-byte groups and there are fewer than [2^31] groups in all. *)
Theorem DecodeFrom_app (src1 src2 : list byte)
    (r : UserDefinedTimestampSizeRecord) :
  N.of_nat (length src1) mod 6 = 0 ->
  N.of_nat (length src2) mod 6 = 0 ->
  N.of_nat (length (src1 ++ src2)) / 6 < 2 ^ 31 ->
  exists r1,
    DecodeFrom src1 r = (OK, [], r1) /\
    DecodeFrom (src1 ++ src2) r = DecodeFrom src2 r1.
Proof.
  intros H1 H2 Hcount. rewrite length_app in Hcount.
  assert (Hfull : forall src r0,
             N.of_nat (length src) mod 6 = 0 ->
             N.of_nat (length src) / 6 < 2 ^ 31 ->
             DecodeFrom src r0
             = (OK, [], mkRecord (cf_to_ts_sz_ r0 ++ groups_of src))).
  { intros src r0 Hmod Hlt. rewrite DecodeFrom_unfold. cbv zeta.
    rewrite Hmod, static_cast_int_small by assumption. cbn [N.eqb].
    pose proof (length_groups_of src) as Hgroups.
    replace (Z.to_nat (Z.of_N (N.of_nat (length src) / 6)))
      with (length (groups_of src)) by lia.
    rewrite skipn_all2 by lia_div. now rewrite firstn_all. }
  eexists. split; [apply Hfull; [assumption | lia_div]|].
  rewrite !Hfull; [| assumption | lia_div | | ].
  - cbn [cf_to_ts_sz_]. now rewrite groups_of_app, app_assoc.
  - rewrite length_app. lia_div.
  - rewrite length_app. assumption.
Qed.

Lemma DecodeFrom_app_witness :
  exists r1,
    DecodeFrom [x01; x00; x00; x00; x08; x00] empty_record = (OK, [], r1) /\
    DecodeFrom ([x01; x00; x00; x00; x08; x00]
                ++ [x02; x00; x00; x00; x04; x00]) empty_record
    = DecodeFrom [x02; x00; x00; x00; x04; x00] r1.
Proof.
  apply (DecodeFrom_app [x01; x00; x00; x00; x08; x00]
           [x02; x00; x00; x00; x04; x00] empty_record);
    vm_compute; reflexivity.
Defined.

Section byte_facts.

Lemma low_byte_eq (v : N) (b : byte) :
  v mod 2 ^ 8 = Byte.to_N b -> low_byte v = b.
Proof.
  intros H. unfold low_byte. change 255 with (N.ones 8).
  rewrite N.land_ones, H, Byte.of_to_N. reflexivity.
Qed.

Lemma testbit_shiftl_to_N (b : byte) (k n : N) :
  N.testbit (N.shiftl (Byte.to_N b) k) n
  = (k <=? n) && (n <? k + 8) && N.testbit (Byte.to_N b) (n - k).
Proof.
  destruct (N.leb_spec k n) as [Hk|Hk]; cbn [andb].
  - rewrite N.shiftl_spec_high' by assumption. rewrite testbit_to_N.
    destruct (N.ltb_spec (n - k) 8), (N.ltb_spec n (k + 8)); cbn [andb];
      try reflexivity; lia.
  - apply N.shiftl_spec_low. assumption.
Qed.

(** The byte at bit offset [k] of a value assembled from bytes. *)
Ltac byte_at k :=
  apply low_byte_eq, N.bits_inj; intros n;
  rewrite testbit_mod_pow2, N.shiftr_spec', (testbit_to_N _ n);
  unfold DecodeFixed32, DecodeFixed16; rewrite !N.lor_spec;
  rewrite <- (N.shiftl_0_r (Byte.to_N _)) at 1;
  rewrite !testbit_shiftl_to_N;
  destruct (N.ltb_spec n 8); cbn [andb]; [|reflexivity];
  repeat match goal with
         | |- context [ (?a <=? ?b) ] => destruct (N.leb_spec a b); try lia
         | |- context [ (?a <? ?b) ] => destruct (N.ltb_spec a b); try lia
         end;
  cbn [andb orb]; rewrite ?orb_false_r;
  f_equal; lia.

Lemma EncodeFixed32_DecodeFixed32 (b0 b1 b2 b3 : byte) :
  EncodeFixed32 (DecodeFixed32 b0 b1 b2 b3) = [b0; b1; b2; b3].
Proof.
  unfold EncodeFixed32.
  rewrite <- (N.shiftr_0_r (DecodeFixed32 b0 b1 b2 b3)) at 1.
  repeat f_equal; [byte_at 0 | byte_at 8 | byte_at 16 | byte_at 24].
Qed.

Lemma EncodeFixed16_DecodeFixed16 (b0 b1 : byte) :
  EncodeFixed16 (DecodeFixed16 b0 b1) = [b0; b1].
Proof.
  unfold EncodeFixed16.
  rewrite <- (N.shiftr_0_r (DecodeFixed16 b0 b1)) at 1.
  repeat f_equal; [byte_at 0 | byte_at 8].
Qed.

Lemma encode_groups_of (src : list byte) :
  N.of_nat (length src) mod 6 = 0 ->
  flat_map encode_pair (groups_of src) = src.
Proof.
  induction src as [src Hshort | b0 b1 b2 b3 b4 b5 rest IH]
    using six_bytes_ind; intros Hlen.
  - destruct src as [|b0 [|b1 [|b2 [|b3 [|b4 [|b5 rest]]]]]];
      cbn [length] in Hshort, Hlen; try lia; try reflexivity;
      exfalso; revert Hlen; clear; vm_compute; discriminate.
  - cbn [groups_of flat_map]. unfold encode_pair at 1. cbn [fst snd].
    rewrite (N.mod_small (DecodeFixed16 b4 b5))
      by (pose proof (DecodeFixed16_bound b4 b5);
          change (2 ^ 16) with 65536 in *; lia).
    rewrite EncodeFixed32_DecodeFixed32, EncodeFixed16_DecodeFixed16, IH.
    + reflexivity.
    + cbn [length] in Hlen. lia_div.
Qed.

End byte_facts.

(** X9.  The other round trip.  For an input that is a whole number of
    fewer than [2^31] six-byte groups, [DecodeFrom] into a fresh record
    succeeds, and [EncodeTo] on the record it leaves writes the input
    bytes back exactly, unless a decoded timestamp size is 0, in which
    case [EncodeTo] fails its assertion. *)
Theorem EncodeTo_DecodeFrom (src : list byte) :
  N.of_nat (length src) mod 6 = 0 ->
  N.of_nat (length src) / 6 < 2 ^ 31 ->
  exists r,
    DecodeFrom src empty_record = (OK, [], r) /\
    EncodeTo r []
    = if forallb (fun p => negb (snd p =? 0)) (GetUserDefinedTimestampSize r)
      then Done src else AssertFailure.
Proof.
  intros Hmod Hcount. exists (mkRecord (groups_of src)). split.
  - rewrite DecodeFrom_unfold. cbv zeta.
    rewrite Hmod, static_cast_int_small by assumption. cbn [N.eqb].
    pose proof (length_groups_of src) as Hgroups.
    replace (Z.to_nat (Z.of_N (N.of_nat (length src) / 6)))
      with (length (groups_of src)) by lia.
    rewrite skipn_all2 by lia_div. now rewrite firstn_all.
  - unfold EncodeTo, GetUserDefinedTimestampSize. cbn [cf_to_ts_sz_].
    destruct (forallb _ _) eqn:Hall.
    + rewrite EncodeTo_loop_Done; [cbn [app]; now rewrite encode_groups_of|].
      apply List.Forall_forall. intros p Hp.
      rewrite forallb_forall in Hall. specialize (Hall p Hp).
      apply negb_true_iff, N.eqb_neq in Hall. exact Hall.
    + apply EncodeTo_loop_AssertFailure. apply List.Exists_exists.
      apply not_true_iff_false in Hall.
      destruct (List.Exists_dec (fun p => snd p = 0) (groups_of src))
        as [Hex | Hnex]; [intros p; apply N.eq_dec | now apply List.Exists_exists in Hex |].
      exfalso. apply Hall. apply forallb_forall. intros p Hp.
      apply negb_true_iff, N.eqb_neq. intros Hz. apply Hnex.
      apply List.Exists_exists. eauto.
Qed.

Lemma EncodeTo_DecodeFrom_witness :
  exists r,
    DecodeFrom [xff; x00; x00; x10; x08; x01] empty_record = (OK, [], r) /\
    EncodeTo r []
    = if forallb (fun p => negb (snd p =? 0)) (GetUserDefinedTimestampSize r)
      then Done [xff; x00; x00; x10; x08; x01] else AssertFailure.
Proof.
  apply (EncodeTo_DecodeFrom [xff; x00; x00; x10; x08; x01]);
    vm_compute; reflexivity.
Defined.

Section debug_string_facts.

Implicit Types (pairs : list (uint32_t * size_t)) (s oss : string).

Lemma DebugString_loop_oss pairs oss :
  DebugString_loop pairs oss
  = (oss ++ DebugString_loop pairs EmptyString)%string.
Proof.
  revert oss. induction pairs as [|[cf_id ts_sz] pairs IH]; intros oss.
  - cbn [DebugString_loop]. clear. induction oss as [|c oss IH]; [reflexivity|].
    change (String c oss = String c (oss ++ ""))%string. now rewrite <- IH.
  - cbn [DebugString_loop]. rewrite IH, (IH (EmptyString ++ _)%string).
    now rewrite string_append_assoc.
Qed.

Lemma line_breaks_app s1 s2 :
  line_breaks (s1 ++ s2) = (line_breaks s1 + line_breaks s2)%nat.
Proof.
  induction s1 as [|c s1 IH]; [reflexivity|].
  change (String c s1 ++ s2)%string with (String c (s1 ++ s2)).
  cbn [line_breaks]. rewrite IH. lia.
Qed.

Lemma line_breaks_decimal (n : N) : line_breaks (decimal n) = 0%nat.
Proof.
  unfold decimal.
  assert (H : forall d, line_breaks (NilEmpty.string_of_uint d) = 0%nat).
  { induction d; cbn [NilEmpty.string_of_uint line_breaks];
      rewrite ?IHd; reflexivity. }
  destruct (N.to_uint n) eqn:E; try (rewrite <- E; unfold NilZero.string_of_uint;
    rewrite E; rewrite <- E at 1; rewrite E; apply H).
  reflexivity.
Qed.

End debug_string_facts.

(** X10.  [DebugString] writes the pairs one after the other: the text of
    an empty record is empty, and the text of the pairs [pairs1 ++ pairs2]
    is the text of [pairs1] followed by the text of [pairs2]. *)
Theorem DebugString_app (pairs1 pairs2 : list (uint32_t * size_t)) :
  DebugString empty_record = EmptyString /\
  DebugString (mkRecord (pairs1 ++ pairs2))
  = (DebugString (mkRecord pairs1) ++ DebugString (mkRecord pairs2))%string.
Proof.
  split; [reflexivity|]. unfold DebugString. cbn [cf_to_ts_sz_].
  rewrite <- DebugString_loop_oss. generalize EmptyString.
  induction pairs1 as [|[cf_id ts_sz] pairs1 IH]; intros oss.
  - reflexivity.
  - cbn [app DebugString_loop]. apply IH.
Qed.

(** X11.  [DebugString] writes exactly one line per pair: the number of
    line breaks in its text is the number of pairs of the record. *)
Theorem DebugString_line_per_pair (r : UserDefinedTimestampSizeRecord) :
  line_breaks (DebugString r) = length (GetUserDefinedTimestampSize r).
Proof.
  unfold DebugString, GetUserDefinedTimestampSize.
  induction (cf_to_ts_sz_ r) as [|[cf_id ts_sz] pairs IH]; [reflexivity|].
  cbn [DebugString_loop length]. rewrite DebugString_loop_oss.
  rewrite !line_breaks_app, !line_breaks_decimal, IH. reflexivity.
Qed.

(** X12.  The batch is handed out at most once.  A call to
    [TransferNewBatch] that returns gives the batch the handler owned and
    leaves the handler invalid, without a batch, and with its maps and
    changed flag as they were; every later call on that handler returns
    too, with the empty pointer and no further change. *)
Theorem TransferNewBatch_at_most_once (h h' : TimestampRecoveryHandler)
    (transferred : option WriteBatch) :
  TransferNewBatch h = Done (transferred, h') ->
  transferred = new_batch_ h /\
  handler_valid_ h' = false /\
  new_batch_ h' = None /\
  running_ts_sz_ h' = running_ts_sz_ h /\
  record_ts_sz_ h' = record_ts_sz_ h /\
  new_batch_diff_from_orig_batch_ h' = new_batch_diff_from_orig_batch_ h /\
  TransferNewBatch h' = Done (None, h').
Proof.
  unfold TransferNewBatch.
  destruct (new_batch_diff_from_orig_batch_ h) eqn:Hchanged; cbn [negb];
    [|discriminate].
  intros [= <- <-].
  cbn [handler_valid_ new_batch_ running_ts_sz_ record_ts_sz_
         new_batch_diff_from_orig_batch_ negb].
  repeat split.
Qed.

Lemma TransferNewBatch_at_most_once_witness :
  let h := mkHandler {[ 1 := 2 ]} ∅ (Some [Delete 1 [x6b; x00; x00]]) true true in
  let h' := mkHandler {[ 1 := 2 ]} ∅ None false true in
  Some [Delete 1 [x6b; x00; x00]] = new_batch_ h /\
  handler_valid_ h' = false /\
  new_batch_ h' = None /\
  running_ts_sz_ h' = running_ts_sz_ h /\
  record_ts_sz_ h' = record_ts_sz_ h /\
  new_batch_diff_from_orig_batch_ h' = new_batch_diff_from_orig_batch_ h /\
  TransferNewBatch h' = Done (None, h').
Proof.
  apply (TransferNewBatch_at_most_once
           (mkHandler {[ 1 := 2 ]} ∅ (Some [Delete 1 [x6b; x00; x00]]) true true)).
  reflexivity.
Defined.

(** X13.  The marker callbacks (begin prepare, end prepare, commit, commit
    with timestamp, rollback, noop) return OK and touch nothing, whatever
    state the handler is in: a traversal of a batch that holds only
    markers returns OK and leaves the handler, valid or not, exactly as it
    was, so no marker ever reaches the new batch. *)
Theorem Iterate_markers (batch : WriteBatch) (h : TimestampRecoveryHandler) :
  Forall (fun e => is_mutation e = false) batch ->
  Iterate batch h = Done (OK, h).
Proof.
  induction 1 as [|e batch He _ IH]; [reflexivity|].
  cbn [Iterate].
  destruct e; cbn in He; try discriminate; cbn [visit]; exact IH.
Qed.

Lemma Iterate_markers_witness :
  Iterate [BeginPrepare false; EndPrepare [x78]; Commit [x78];
           CommitWithTimestamp [x78] [x00]; Rollback [x78]; Noop true]
          (mkHandler ∅ ∅ None false true)
  = Done (OK, mkHandler ∅ ∅ None false true).
Proof.
  apply Iterate_markers. repeat constructor.
Defined.

(** * Further properties of the replay *)

Section replay_characterisation.

Implicit Types (h : TimestampRecoveryHandler) (e : Entry) (batch : WriteBatch).

Lemma Reconcile_Done h cf (key new_key : list byte) s h1 :
  ReconcileTimestampDiscrepancy h cf key = Done (s, new_key, h1) ->
  handler_valid_ h = true /\
  ((s = OK /\
    new_key = reconciled_key (running_ts_sz_ h) (record_ts_sz_ h) cf key /\
    ((new_key = key /\ h1 = h) \/ (new_key <> key /\ h1 = mark_changed h)))
   \/
   (s = InvalidArgument unreconcilable_error /\ h1 = h /\
    unreconcilable (running_ts_sz_ h) (record_ts_sz_ h) cf)).
Proof.
  unfold ReconcileTimestampDiscrepancy, reconcile, reconciled_key.
  destruct (handler_valid_ h); cbn [negb]; [|discriminate].
  destruct (running_ts_sz_ h !! cf) as [running_sz|] eqn:Hrun.
  - fold (recorded_size (record_ts_sz_ h) cf).
    destruct (reconciliation_rule (recorded_size (record_ts_sz_ h) cf)
                running_sz) eqn:Hrule; cbn [mbind Run_bind].
    + intros [= <- <- <-]. split; [reflexivity|]. left. auto.
    + intros [= <- <- <-]. split; [reflexivity|]. left.
      apply reconciliation_rule_Pad in Hrule as [_ Hpos].
      split; [reflexivity|]. split; [reflexivity|]. right.
      split; [|reflexivity]. intros E. apply (f_equal (@length _)) in E.
      unfold min_timestamp in E. rewrite length_app, repeat_length in E. lia.
    + apply reconciliation_rule_Strip in Hrule as [Hpos _].
      destruct (N.ltb_spec (N.of_nat (length key))
                  (recorded_size (record_ts_sz_ h) cf));
        cbn [mbind Run_bind]; [discriminate|].
      intros [= <- <- <-]. split; [reflexivity|]. left.
      split; [reflexivity|]. split; [reflexivity|]. right.
      split; [|reflexivity]. intros E. apply (f_equal (@length _)) in E.
      rewrite length_firstn in E. lia.
    + intros [= <- <- <-]. split; [reflexivity|]. right.
      apply reconciliation_rule_Fail in Hrule.
      repeat split. exists running_sz. tauto.
  - intros [= <- <- <-]. split; [reflexivity|]. left. auto.
Qed.

Lemma on_key_effect h cf (key : list byte) (mk : list byte -> Entry) s h1 :
  (forall k k', mk k = mk k' -> k = k') ->
  on_key h cf key mk = Done (s, h1) ->
  visit_effect h h1 s [mk key]
    [mk (reconciled_key (running_ts_sz_ h) (record_ts_sz_ h) cf key)] [cf].
Proof.
  intros Hinj. unfold on_key.
  destruct (ReconcileTimestampDiscrepancy h cf key) as [[[s0 k0] h0]|] eqn:E;
    cbn [mbind Run_bind]; [|discriminate].
  apply Reconcile_Done in E
      as [Hvalid [(-> & -> & Hcase) | (-> & -> & Hbad)]]; cbn [ok].
  - intros [= <- <-]. left. split; [reflexivity|].
    destruct Hcase as [[Hsame ->] | [Hdiff ->]]; cbn;
      (split; [reflexivity|]); repeat (split; [assumption || reflexivity|]).
    + rewrite Hsame. tauto.
    + split; [discriminate|]. intros [_ [= Hk%Hinj]]. contradiction.
  - intros [= <- <-]. right. split; [reflexivity|].
    exists cf. split; [apply list_elem_of_here | assumption].
Qed.

Lemma visit_effect_of h e s h1 :
  visit h e = Done (s, h1) ->
  handler_valid_ h = true ->
  visit_effect h h1 s
    (match entry_cf e with Some _ => [e] | None => [] end)
    (match entry_cf e with
     | Some _ => [reconciled_entry (running_ts_sz_ h) (record_ts_sz_ h) e]
     | None => []
     end)
    (match entry_cf e with Some cf => [cf] | None => [] end).
Proof.
  intros Hvisit Hvalid.
  destruct e; cbn [visit entry_cf reconciled_entry] in *;
    unfold PutCF, DeleteCF, SingleDeleteCF, MergeCF, PutBlobIndexCF in *;
    try (apply on_key_effect in Hvisit; [exact Hvisit | now intros ? ? [= ->]]);
    try (unfold MarkBeginPrepare, MarkEndPrepare, MarkCommit,
           MarkCommitWithTimestamp, MarkRollback, MarkNoop in Hvisit;
         injection Hvisit as <- <-; left; split; [reflexivity|];
         split; [destruct (new_batch_ h); cbn; now rewrite ?app_nil_r|];
         repeat (split; [assumption || reflexivity|]); tauto).
  unfold DeleteRangeCF in Hvisit.
  destruct (ReconcileTimestampDiscrepancy h cf begin_key)
    as [[[s1 k1] h2]|] eqn:E1; cbn [mbind Run_bind] in Hvisit; [|discriminate].
  apply Reconcile_Done in E1
      as [_ [(-> & -> & Hcase1) | (-> & -> & Hbad)]]; cbn [ok] in Hvisit.
  - assert (Hframe : running_ts_sz_ h2 = running_ts_sz_ h /\
                     record_ts_sz_ h2 = record_ts_sz_ h)
      by (destruct Hcase1 as [[_ ->] | [_ ->]]; split; reflexivity).
    destruct Hframe as [Hrun2 Hrec2].
    destruct (ReconcileTimestampDiscrepancy h2 cf end_key)
      as [[[s2 k2] h3]|] eqn:E2; cbn [mbind Run_bind] in Hvisit;
      [|discriminate].
    apply Reconcile_Done in E2
        as [_ [(-> & -> & Hcase2) | (-> & -> & Hbad)]]; cbn [ok] in Hvisit;
      injection Hvisit as <- <-.
    + left. split; [reflexivity|]. rewrite Hrun2, Hrec2.
      destruct Hcase1 as [[Hs1 ->] | [Hd1 ->]],
        Hcase2 as [[Hs2 ->] | [Hd2 ->]]; cbn;
        (split; [reflexivity|]); repeat (split; [assumption || reflexivity|]).
      * rewrite Hs1, Hs2. tauto.
      * split; [discriminate|]. intros [_ [= _ Hk]]. contradiction.
      * split; [discriminate|]. intros [_ [= Hk _]]. contradiction.
      * split; [discriminate|]. intros [_ [= Hk _]]. contradiction.
    + right. split; [reflexivity|]. exists cf.
      split; [apply list_elem_of_here|]. now rewrite <- Hrun2, <- Hrec2.
  - injection Hvisit as <- <-. right. split; [reflexivity|].
    exists cf. split; [apply list_elem_of_here | assumption].
Qed.

Lemma mutations_cons e batch :
  mutations (e :: batch)
  = match entry_cf e with Some _ => [e] | None => [] end ++ mutations batch.
Proof.
  unfold mutations. rewrite filter_cons. unfold is_mutation.
  destruct (entry_cf e); [rewrite decide_True | rewrite decide_False];
    try reflexivity; discriminate.
Qed.

Lemma referenced_cfs_cons e batch :
  referenced_cfs (e :: batch)
  = match entry_cf e with Some cf => [cf] | None => [] end
    ++ referenced_cfs batch.
Proof.
  unfold referenced_cfs. cbn [omap list_omap]. now destruct (entry_cf e).
Qed.

Lemma Iterate_effect batch h s h' :
  handler_valid_ h = true ->
  Iterate batch h = Done (s, h') ->
  (s = OK /\
   new_batch_ h'
   = (fun b => b ++ map (reconciled_entry (running_ts_sz_ h)
                           (record_ts_sz_ h)) (mutations batch))
       <$> new_batch_ h /\
   handler_valid_ h' = true /\
   (new_batch_diff_from_orig_batch_ h' = false
    <-> new_batch_diff_from_orig_batch_ h = false /\
        map (reconciled_entry (running_ts_sz_ h) (record_ts_sz_ h))
            (mutations batch) = mutations batch)) \/
  (s = InvalidArgument unreconcilable_error /\
   exists cf, cf ∈ referenced_cfs batch /\
              unreconcilable (running_ts_sz_ h) (record_ts_sz_ h) cf).
Proof.
  revert h. induction batch as [|e batch IH]; intros h Hvalid; cbn [Iterate].
  - intros [= <- <-]. left. split; [reflexivity|].
    split; [destruct (new_batch_ h); cbn; now rewrite ?app_nil_r|].
    split; [assumption | tauto].
  - destruct (visit h e) as [[s1 h1]|] eqn:E; cbn [mbind Run_bind];
      [|discriminate].
    apply visit_effect_of in E; [|assumption].
    rewrite mutations_cons, referenced_cfs_cons, map_app.
    destruct E as [(-> & Hb1 & Hrun1 & Hrec1 & Hvalid1 & Hflag1)
                  | (-> & cf & Hin & Hbad)]; cbn [ok].
    + intros Hrest. apply IH in Hrest; [|assumption].
      rewrite Hrun1, Hrec1 in Hrest.
      destruct Hrest as [(-> & Hb & Hvalid' & Hflag)
                        | (-> & cf & Hin & Hbad)].
      * left. split; [reflexivity|]. split; [|split; [assumption|]].
        -- rewrite Hb, Hb1. destruct (new_batch_ h); cbn; [|reflexivity].
           rewrite <- app_assoc. do 2 f_equal.
           now destruct (entry_cf e).
        -- rewrite Hflag, Hflag1. clear. destruct (entry_cf e); cbn [map app].
           ++ split.
              ** intros [[Hh [= ->]] ->]. auto.
              ** intros [Hh [= -> ->]]. auto.
           ++ tauto.
      * right. split; [reflexivity|]. exists cf.
        split; [apply elem_of_app; now right | assumption].
    + intros [= <- <-]. right. split; [reflexivity|]. exists cf.
      split; [apply elem_of_app; now left | assumption].
Qed.

Lemma check_column_family_OK (running_ts_sz record_ts_sz : gmap N N) cf :
  check_column_family running_ts_sz record_ts_sz cf = OK
  <-> ~ inconsistent running_ts_sz record_ts_sz cf.
Proof.
  unfold check_column_family, inconsistent.
  destruct (running_ts_sz !! cf) as [running_sz|].
  - fold (recorded_size record_ts_sz cf).
    destruct (reconciliation_rule _ _) eqn:Hrule.
    + apply reconciliation_rule_NoOp in Hrule. split; [|reflexivity].
      intros _ (n & [= <-] & Hne). contradiction.
    + apply reconciliation_rule_Pad in Hrule. split; [discriminate|].
      intros H. exfalso. apply H. exists running_sz. split; [reflexivity | lia].
    + apply reconciliation_rule_Strip in Hrule. split; [discriminate|].
      intros H. exfalso. apply H. exists running_sz. split; [reflexivity | lia].
    + apply reconciliation_rule_Fail in Hrule. split; [discriminate|].
      intros H. exfalso. apply H. exists running_sz. split; [reflexivity | lia].
  - split; [|reflexivity]. intros _ (n & Hn & _). discriminate.
Qed.

Lemma VerifyConsistency_cases (running_ts_sz record_ts_sz : gmap N N)
    (cfs : list N) :
  (VerifyConsistency running_ts_sz record_ts_sz cfs = OK /\
   Forall (fun cf => ~ inconsistent running_ts_sz record_ts_sz cf) cfs) \/
  (exists cf recorded_sz running_sz,
      cf ∈ cfs /\ running_ts_sz !! cf = Some running_sz /\
      recorded_size record_ts_sz cf = recorded_sz /\
      recorded_sz <> running_sz /\
      VerifyConsistency running_ts_sz record_ts_sz cfs
      = InvalidArgument (inconsistency_error cf recorded_sz running_sz)).
Proof.
  induction cfs as [|cf cfs IH]; [left; split; [reflexivity | constructor]|].
  cbn [VerifyConsistency].
  destruct (check_column_family running_ts_sz record_ts_sz cf) eqn:Hcheck.
  - cbn [ok]. apply check_column_family_OK in Hcheck.
    destruct IH as [[-> Hall] | (cf' & r & n & Hin & Hn & Hr & Hne & ->)].
    + left. split; [reflexivity | now constructor].
    + right. exists cf', r, n. repeat split; try assumption.
      now apply list_elem_of_further.
  - exfalso. unfold check_column_family in Hcheck.
    destruct (running_ts_sz !! cf); [|discriminate].
    destruct (reconciliation_rule _ _); discriminate.
  - cbn [ok]. right. unfold check_column_family in Hcheck.
    destruct (running_ts_sz !! cf) as [running_sz|] eqn:Hrun; [|discriminate].
    fold (recorded_size record_ts_sz cf) in Hcheck.
    exists cf, (recorded_size record_ts_sz cf), running_sz.
    split; [apply list_elem_of_here|]. split; [assumption|].
    split; [reflexivity|].
    destruct (reconciliation_rule _ _) eqn:Hrule; try discriminate;
      (split; [|congruence]).
    + apply reconciliation_rule_Pad in Hrule. lia.
    + apply reconciliation_rule_Strip in Hrule. lia.
    + apply reconciliation_rule_Fail in Hrule. lia.
Qed.

End replay_characterisation.

(** X14.  Padding is undone by stripping.  For a column family that had
    no timestamp when the key was written and now has one of [ts_sz] > 0
    bytes, the rule pads the key with [ts_sz] zero bytes; reconciling the
    padded key the other way (recorded [ts_sz], running 0) strips exactly
    those bytes and gives the original key back. *)
Theorem strip_undoes_pad (key : list byte) (ts_sz : size_t) :
  0 < ts_sz ->
  exists padded,
    reconcile 0 ts_sz key = Done (OK, Some padded) /\
    padded = key ++ repeat x00 (N.to_nat ts_sz) /\
    reconcile ts_sz 0 padded = Done (OK, Some key).
Proof.
  intros Hpos. exists (key ++ repeat x00 (N.to_nat ts_sz)). unfold reconcile.
  rewrite (proj2 (reconciliation_rule_Pad 0 ts_sz)) by auto.
  rewrite (proj2 (reconciliation_rule_Strip ts_sz 0)) by auto.
  split; [reflexivity|]. split; [reflexivity|].
  rewrite length_app, repeat_length.
  destruct (N.ltb_spec (N.of_nat (length key + N.to_nat ts_sz)) ts_sz); [lia|].
  replace (length key + N.to_nat ts_sz - N.to_nat ts_sz)%nat
    with (length key + 0)%nat by lia.
  now rewrite firstn_app_2, firstn_O, app_nil_r.
Qed.

Lemma strip_undoes_pad_witness :
  exists padded,
    reconcile 0 2 [x6b] = Done (OK, Some padded) /\
    padded = [x6b] ++ repeat x00 (N.to_nat 2) /\
    reconcile 2 0 padded = Done (OK, Some [x6b]).
Proof. apply (strip_undoes_pad [x6b] 2). lia. Defined.

(** X15.  What a successful replay builds.  If the traversal of a batch
    by a fresh handler returns OK, the batch the handler owns afterwards
    is the sequence of the mutations of the source batch, in order, each
    with its user keys replaced by the key the rule prescribes for its
    column family (both keys for a delete range) and everything else (kind,
    column family, value) as it was; the handler is still valid. *)
Theorem replay_builds_reconciled_batch (batch : WriteBatch)
    (running_ts_sz record_ts_sz : gmap N N) (h' : TimestampRecoveryHandler) :
  Iterate batch (new_TimestampRecoveryHandler running_ts_sz record_ts_sz)
  = Done (OK, h') ->
  new_batch_ h'
  = Some (map (reconciled_entry running_ts_sz record_ts_sz) (mutations batch))
  /\ handler_valid_ h' = true.
Proof.
  intros Hrun. apply Iterate_effect in Hrun; [|reflexivity].
  destruct Hrun as [(_ & Hb & Hvalid & _) | (Hs & _)]; [|discriminate].
  split; [exact Hb | exact Hvalid].
Qed.

Lemma replay_builds_reconciled_batch_witness :
  let batch := [DeleteRange 1 [x61] [x7a]; Commit []; Put 2 [x6b; x00] [x76]] in
  let running_ts_sz : gmap N N := {[ 1 := 1; 2 := 0 ]} in
  let record_ts_sz : gmap N N := {[ 2 := 1 ]} in
  Some [DeleteRange 1 [x61; x00] [x7a; x00]; Put 2 [x6b] [x76]]
  = Some (map (reconciled_entry running_ts_sz record_ts_sz) (mutations batch))
  /\ true = true.
Proof.
  cbv zeta.
  apply (replay_builds_reconciled_batch
           [DeleteRange 1 [x61] [x7a]; Commit []; Put 2 [x6b; x00] [x76]]
           {[ 1 := 1; 2 := 0 ]} {[ 2 := 1 ]}
           (mkHandler {[ 1 := 1; 2 := 0 ]} {[ 2 := 1 ]}
              (Some [DeleteRange 1 [x61; x00] [x7a; x00]; Put 2 [x6b] [x76]])
              true true)).
  reflexivity.
Defined.

(** X16.  The changed flag says what its name says.  After a traversal by
    a fresh handler that returned OK, [new_batch_diff_from_orig_batch_] is
    true exactly when the batch built differs from the mutations of the
    source batch, and false exactly when it is the same sequence. *)
Theorem changed_flag_is_accurate (batch : WriteBatch)
    (running_ts_sz record_ts_sz : gmap N N) (h' : TimestampRecoveryHandler) :
  Iterate batch (new_TimestampRecoveryHandler running_ts_sz record_ts_sz)
  = Done (OK, h') ->
  (new_batch_diff_from_orig_batch_ h' = false
   <-> new_batch_ h' = Some (mutations batch)) /\
  (new_batch_diff_from_orig_batch_ h' = true
   <-> new_batch_ h' <> Some (mutations batch)).
Proof.
  intros Hrun. apply Iterate_effect in Hrun; [|reflexivity].
  destruct Hrun as [(_ & Hb & _ & Hflag) | (Hs & _)]; [|discriminate].
  cbn in Hb, Hflag. rewrite Hb.
  assert (H : new_batch_diff_from_orig_batch_ h' = false
              <-> Some (map (reconciled_entry running_ts_sz record_ts_sz)
                            (mutations batch)) = Some (mutations batch)).
  { rewrite Hflag. split; [intros [_ ->]; reflexivity | intros [= ->]; auto]. }
  split; [exact H|]. rewrite <- H.
  destruct (new_batch_diff_from_orig_batch_ h'); split; congruence.
Qed.

Lemma changed_flag_is_accurate_witness :
  let h' := mkHandler {[ 1 := 1 ]} ∅ (Some [Delete 1 [x61; x00]]) true true in
  (new_batch_diff_from_orig_batch_ h' = false
   <-> new_batch_ h' = Some (mutations [Delete 1 [x61]])) /\
  (new_batch_diff_from_orig_batch_ h' = true
   <-> new_batch_ h' <> Some (mutations [Delete 1 [x61]])).
Proof.
  cbv zeta.
  apply (changed_flag_is_accurate [Delete 1 [x61]] {[ 1 := 1 ]} ∅).
  reflexivity.
Defined.

(** X17.  A status that is not OK indicates an intolerable inconsistency.
    Whenever [HandleWriteBatchTimestampSizeDifference] returns a status
    other than OK, that status is InvalidArgument, the output slot is as
    it was, and the batch refers to a running column family whose recorded
    and running timestamp sizes differ; in reconciliation mode both sizes
    are moreover nonzero.  It never returns Corruption. *)
Theorem non_OK_status_means_inconsistency (batch : WriteBatch)
    (running_ts_sz record_ts_sz : gmap N N)
    (check_mode : TimestampSizeConsistencyMode)
    (new_batch out : option WriteBatch) (s : Status) :
  HandleWriteBatchTimestampSizeDifference batch running_ts_sz record_ts_sz
    check_mode new_batch = Done (s, out) ->
  s <> OK ->
  IsInvalidArgument s /\ out = new_batch /\
  exists cf,
    cf ∈ referenced_cfs batch /\
    inconsistent running_ts_sz record_ts_sz cf /\
    (check_mode = kReconcileInconsistency ->
     unreconcilable running_ts_sz record_ts_sz cf).
Proof.
  destruct check_mode; cbn [HandleWriteBatchTimestampSizeDifference].
  - intros [= <- <-] Hs.
    destruct (VerifyConsistency_cases running_ts_sz record_ts_sz
                (referenced_cfs batch))
      as [[Hok _] | (cf & r & n & Hin & Hn & Hr & Hne & Hv)];
      [contradiction|].
    rewrite Hv. split; [eexists; reflexivity|]. split; [reflexivity|].
    exists cf. split; [assumption|]. split; [|discriminate].
    exists n. split; [assumption | congruence].
  - destruct (Iterate batch _) as [[s1 h1]|] eqn:E; cbn [mbind Run_bind];
      [|discriminate].
    apply Iterate_effect in E; [|reflexivity].
    destruct E as [(-> & _) | (-> & cf & Hin & Hbad)]; cbn [ok].
    + destruct (TransferNewBatch h1) as [[b h2]|]; cbn [mbind Run_bind];
        [|discriminate].
      intros [= <- <-] Hs. contradiction.
    + intros [= <- <-] _. split; [eexists; reflexivity|].
      split; [reflexivity|]. exists cf. split; [assumption|].
      split; [|intros _; exact Hbad].
      destruct Hbad as (n & Hn & Hr & Hpos & Hne). exists n. auto.
Qed.

Lemma non_OK_status_means_inconsistency_witness :
  let running_ts_sz : gmap N N := {[ 1 := 5 ]} in
  let record_ts_sz : gmap N N := {[ 1 := 3 ]} in
  IsInvalidArgument (InvalidArgument unreconcilable_error) /\
  (None : option WriteBatch) = None /\
  exists cf,
    cf ∈ referenced_cfs [Put 1 [x6b; x00; x00; x00] [x76]] /\
    inconsistent running_ts_sz record_ts_sz cf /\
    (kReconcileInconsistency = kReconcileInconsistency ->
     unreconcilable running_ts_sz record_ts_sz cf).
Proof.
  cbv zeta.
  apply (non_OK_status_means_inconsistency
           [Put 1 [x6b; x00; x00; x00] [x76]] {[ 1 := 5 ]} {[ 1 := 3 ]}
           kReconcileInconsistency None None).
  - reflexivity.
  - discriminate.
Defined.

(** X18.  What verification mode checks.  If the call in verification mode
    returns OK, it leaves the output slot alone, every column family the
    batch refers to is dropped or has equal recorded and running sizes,
    and replaying the batch would change nothing: a fresh handler returns
    OK, builds exactly the mutations of the batch and leaves the changed
    flag false. *)
Theorem verified_batch_needs_no_change (batch : WriteBatch)
    (running_ts_sz record_ts_sz : gmap N N) (new_batch out : option WriteBatch) :
  HandleWriteBatchTimestampSizeDifference batch running_ts_sz record_ts_sz
    kVerifyConsistency new_batch = Done (OK, out) ->
  out = new_batch /\
  Forall (settled running_ts_sz record_ts_sz) (referenced_cfs batch) /\
  Iterate batch (new_TimestampRecoveryHandler running_ts_sz record_ts_sz)
  = Done (OK, mkHandler running_ts_sz record_ts_sz (Some (mutations batch))
                true false).
Proof.
  cbn [HandleWriteBatchTimestampSizeDifference]. intros [= Hok <-].
  split; [reflexivity|].
  assert (Hall : Forall (settled running_ts_sz record_ts_sz)
                        (referenced_cfs batch)).
  { destruct (VerifyConsistency_cases running_ts_sz record_ts_sz
                (referenced_cfs batch))
      as [[_ Hall] | (cf & r & n & _ & _ & _ & _ & Hv)]; [|congruence].
    eapply Forall_impl; [exact Hall|]. intros cf Hcf. unfold settled.
    destruct (running_ts_sz !! cf) as [n|] eqn:Hn; [|now left]. right.
    destruct (N.eq_dec (recorded_size record_ts_sz cf) n) as [<-|Hne];
      [reflexivity|].
    exfalso. apply Hcf. exists n. auto. }
  split; [exact Hall|]. now rewrite Iterate_settled.
Qed.

Lemma verified_batch_needs_no_change_witness :
  let batch := [Put 1 [x6b; x00] [x76]; Noop false; Delete 9 [x78]] in
  let running_ts_sz : gmap N N := {[ 1 := 1 ]} in
  let record_ts_sz : gmap N N := {[ 1 := 1 ]} in
  (None : option WriteBatch) = None /\
  Forall (settled running_ts_sz record_ts_sz) (referenced_cfs batch) /\
  Iterate batch (new_TimestampRecoveryHandler running_ts_sz record_ts_sz)
  = Done (OK, mkHandler running_ts_sz record_ts_sz (Some (mutations batch))
                true false).
Proof.
  cbv zeta.
  apply (verified_batch_needs_no_change
           [Put 1 [x6b; x00] [x76]; Noop false; Delete 9 [x78]]
           {[ 1 := 1 ]} {[ 1 := 1 ]} None None).
  reflexivity.
Defined.
